(** * The similarity / statistics engine of [src/app/api/analyze/route.ts]

    A shallow embedding of the request handler [POST] and of its two helpers
    [isNumericLike] and [toNumber], followed by the properties the
    specification states about them.

    Layout of the development:
    - [JS]: the part of the ECMAScript runtime the handler relies on
      (strings, [Number(string)], [String(number)], [toFixed], own-property
      order of plain objects, [Array.prototype.sort]);
    - the data model (values, rows, payload, response);
    - [Arith]: the arithmetic the engine computes with, instantiated by
      IEEE-754 binary64 ([ieee], executable and bit-exact) and by the real
      numbers ([exact], the idealisation used where a property needs the
      laws of arithmetic);
    - the handler itself, in a section over [Arith];
    - [Generate], the strategy route, and [Page], the selection logic of
      the page that calls the two routes;
    - the vocabulary of the properties, then the properties, in the order
      of the handler's code, followed by further properties of the
      handler, of the strategy route and of the page. *)

From Stdlib Require Import ZArith List String Ascii Bool Floats Lia.
From Stdlib Require Import Reals Lra Permutation Sorted.
Import ListNotations.

Open Scope string_scope.
Open Scope list_scope.
Open Scope nat_scope.

(* ================================================================== *)
(** * The ECMAScript runtime, as far as the handler uses it            *)
(* ================================================================== *)

Module JS.

(** Strings are sequences of bytes (UTF-8). *)

Definition code (c : ascii) : nat := nat_of_ascii c.

Definition between (lo hi n : nat) : bool := (lo <=? n)%nat && (n <=? hi)%nat.

(** ** [String.prototype.toLowerCase]

    Only the letters A-Z are mapped.  No character outside ASCII lower-cases
    to one of the letters that occur in the constants the handler compares
    with, so the comparisons below are exact on every input.  *)
Definition lower_char (c : ascii) : ascii :=
  if between 65 90 (code c) then ascii_of_nat (code c + 32) else c.

Fixpoint toLowerCase (s : string) : string :=
  match s with
  | EmptyString => EmptyString
  | String c r => String (lower_char c) (toLowerCase r)
  end.

(** ** White space ([WhiteSpace] and [LineTerminator] productions)

    TAB, LF, VT, FF, CR, SP, and in UTF-8: U+00A0, U+1680, U+2000..U+200A,
    U+2028, U+2029, U+202F, U+205F, U+3000, U+FEFF. *)
Definition ws1 (a : ascii) : bool :=
  between 9 13 (code a) || (code a =? 32)%nat.

Definition ws2 (a b : ascii) : bool :=
  (code a =? 194)%nat && (code b =? 160)%nat.

Definition ws3 (a b c : ascii) : bool :=
  let x := code a in let y := code b in let z := code c in
  ((x =? 225) && (y =? 154) && (z =? 128))%nat
  || ((x =? 226)%nat && (y =? 128)%nat
      && (between 128 138 z || (z =? 168) || (z =? 169) || (z =? 175))%nat)
  || ((x =? 226) && (y =? 129) && (z =? 159))%nat
  || ((x =? 227) && (y =? 128) && (z =? 128))%nat
  || ((x =? 239) && (y =? 187) && (z =? 191))%nat.

(** Removes the white space at the head of a byte list.  With [back] the
    list is read as the reversal of the end of a string, so the bytes of a
    multi-byte character come in the opposite order. *)
Fixpoint strip (back : bool) (l : list ascii) : list ascii :=
  match l with
  | [] => []
  | a :: r1 =>
      if ws1 a then strip back r1 else
      match r1 with
      | [] => l
      | b :: r2 =>
          if (if back then ws2 b a else ws2 a b) then strip back r2 else
          match r2 with
          | [] => l
          | c :: r3 =>
              if (if back then ws3 c b a else ws3 a b c)
              then strip back r3 else l
          end
      end
  end.

Definition trim_list (l : list ascii) : list ascii :=
  rev (strip true (rev (strip false l))).

(** [String.prototype.trim] *)
Definition trim (s : string) : string :=
  string_of_list_ascii (trim_list (list_ascii_of_string s)).

(** ** Rounding a rational to binary64 (round to nearest, ties to even)

    [round_ratio neg p q] is the double nearest to [± p / q] for [p >= 0] and
    [q > 0].  The quotient is computed with at least 55 significant bits and a
    sticky bit, then handed to the reference rounding of [SpecFloat]. *)
Definition round_ratio (neg : bool) (p q : Z) : float :=
  if (p =? 0)%Z then (if neg then neg_zero else zero) else
  let k := Z.max 0 (56 + Z.log2 q - Z.log2 p) in
  let n := (p * 2 ^ k)%Z in
  let m := (2 * (n / q) + (if (n mod q =? 0)%Z then 0 else 1))%Z in
  match m with
  | Zpos mp => SF2Prim (binary_round prec emax neg mp (- k - 1))
  | _ => nan
  end.

(** The doubles that hold small natural numbers (counters, lengths). *)
Definition of_nat (n : nat) : float := round_ratio false (Z.of_nat n) 1.

(** The exact value of a finite double, as a fraction [(p, q)] with
    [q > 0]; the sign is returned apart. *)
Definition exact_value (x : float) : bool * Z * Z :=
  match Prim2SF x with
  | S754_finite s m e =>
      if (0 <=? e)%Z then (s, (Zpos m * 2 ^ e)%Z, 1%Z)
      else (s, Zpos m, (2 ^ (- e))%Z)
  | S754_zero s => (s, 0%Z, 1%Z)
  | _ => (false, 0%Z, 1%Z)
  end.

(** ** [Number(string)]: the [StringToNumber] grammar *)

Inductive numlit :=
| LitNaN
| LitInf (neg : bool)
| LitRat (neg : bool) (m : Z) (e10 : Z).  (* ± m × 10^e10 *)

Definition is_digit (c : ascii) : bool := between 48 57 (code c).

Definition hex_val (c : ascii) : option Z :=
  let n := code c in
  if between 48 57 n then Some (Z.of_nat n - 48)%Z
  else if between 97 102 n then Some (Z.of_nat n - 87)%Z
  else if between 65 70 n then Some (Z.of_nat n - 55)%Z
  else None.

(** Reads the longest prefix of decimal digits: its value, its length and
    the rest. *)
Fixpoint take_digits (l : list ascii) (acc : Z) (cnt : nat)
  : Z * nat * list ascii :=
  match l with
  | c :: r =>
      if is_digit c
      then take_digits r (10 * acc + (Z.of_nat (code c) - 48))%Z (S cnt)
      else (acc, cnt, l)
  | [] => (acc, cnt, [])
  end.

(** A non-empty sequence of digits in base [base], and nothing else. *)
Fixpoint all_digits (base : Z) (l : list ascii) (acc : Z) : option Z :=
  match l with
  | [] => Some acc
  | c :: r =>
      match hex_val c with
      | Some d => if (d <? base)%Z then all_digits base r (base * acc + d)%Z
                  else None
      | None => None
      end
  end.

Definition radix_literal (l : list ascii) : option Z :=
  match l with
  | "0"%char :: p :: d :: r =>
      let base :=
        if (code (lower_char p) =? 120)%nat then 16%Z       (* x *)
        else if (code (lower_char p) =? 111)%nat then 8%Z   (* o *)
        else if (code (lower_char p) =? 98)%nat then 2%Z    (* b *)
        else 0%Z in
      if (base =? 0)%Z then None else all_digits base (d :: r) 0%Z
  | _ => None
  end.

Definition ascii_list_eqb (a b : list ascii) : bool :=
  String.eqb (string_of_list_ascii a) (string_of_list_ascii b).

(** [ExponentPart], already past the letter e. *)
Definition exponent_part (l : list ascii) : option Z :=
  let '(neg, ds) :=
    match l with
    | "-"%char :: r => (true, r)
    | "+"%char :: r => (false, r)
    | _ => (false, l)
    end in
  match take_digits ds 0%Z 0 with
  | (v, S _, []) => Some (if neg then (- v)%Z else v)
  | _ => None
  end.

(** [StrUnsignedDecimalLiteral] *)
Definition unsigned_decimal (neg : bool) (l : list ascii) : numlit :=
  if ascii_list_eqb l (list_ascii_of_string "Infinity") then LitInf neg else
  let '(ip, n1, r1) := take_digits l 0%Z 0 in
  let '(m, n2, r2, ok) :=
    match r1 with
    | "."%char :: r =>
        let '(m', n2, r2) := take_digits r ip 0 in
        (m', n2, r2, negb ((n1 + n2 =? 0)%nat))
    | _ => (ip, 0%nat, r1, negb (n1 =? 0)%nat)
    end in
  if negb ok then LitNaN else
  match r2 with
  | [] => LitRat neg m (- Z.of_nat n2)
  | e :: r =>
      if (code (lower_char e) =? 101)%nat then
        match exponent_part r with
        | Some x => LitRat neg m (x - Z.of_nat n2)
        | None => LitNaN
        end
      else LitNaN
  end.

(** [StringNumericLiteral], white space already removed. *)
Definition parse_literal (l : list ascii) : numlit :=
  match l with
  | [] => LitRat false 0 0
  | "-"%char :: r => unsigned_decimal true r
  | "+"%char :: r => unsigned_decimal false r
  | _ =>
      match radix_literal l with
      | Some n => LitRat false n 0
      | None => unsigned_decimal false l
      end
  end.

Definition literal_value (n : numlit) : float :=
  match n with
  | LitNaN => nan
  | LitInf neg => if neg then neg_infinity else infinity
  | LitRat neg m e10 =>
      if (0 <=? e10)%Z then round_ratio neg (m * 10 ^ e10) 1
      else round_ratio neg m (10 ^ (- e10))
  end.

(** [Number(s)] for a string [s]. *)
Definition Number (s : string) : float :=
  literal_value (parse_literal (trim_list (list_ascii_of_string s))).

(** [Number.isNaN], [Number.isFinite] on a number. *)
Definition isNaN (x : float) : bool := is_nan x.
Definition isFinite (x : float) : bool := is_finite x.

(** ** Decimal output *)

Definition digit_char (d : Z) : ascii := ascii_of_nat (48 + Z.to_nat d).

Fixpoint digits_fuel (fuel : nat) (n : Z) (acc : list ascii) : list ascii :=
  match fuel with
  | O => digit_char (n mod 10) :: acc
  | S f =>
      if (n <? 10)%Z then digit_char n :: acc
      else digits_fuel f (n / 10)%Z (digit_char (n mod 10) :: acc)
  end.

(** The decimal digits of a natural number [n >= 0]. *)
Definition digits (n : Z) : list ascii :=
  digits_fuel (Z.to_nat (Z.log2 n)) n [].

Definition zeros (n : Z) : list ascii := repeat "0"%char (Z.to_nat n).

(** [p / q < 10 ^ n] *)
Definition below_pow10 (p q n : Z) : bool :=
  if (0 <=? n)%Z then (p <? q * 10 ^ n)%Z else (p * 10 ^ (- n) <? q)%Z.

(** The [n] with [10 ^ (n - 1) <= p / q < 10 ^ n], for [p, q > 0]. *)
Definition decimal_exponent (p q : Z) : Z :=
  let n0 := (((Z.log2 p - Z.log2 q) * 30103) / 100000)%Z in
  match filter (below_pow10 p q)
               (map (fun i => (n0 - 2 + Z.of_nat i)%Z) (seq 0 7)) with
  | n :: _ => n
  | [] => (n0 + 5)%Z
  end.

(** [s × 10 ^ e] read back as a double. *)
Definition read_back (s e : Z) : float :=
  if (0 <=? e)%Z then round_ratio false (s * 10 ^ e) 1
  else round_ratio false s (10 ^ (- e)).

(** The candidates with [k] digits for the value [p / q] of exponent [n]:
    the two integers around [p / q × 10 ^ (k - n)], the nearer first
    (the even one on a tie). *)
Definition candidates (p q n k : Z) : list Z :=
  let '(P, Q) := if (0 <=? k - n)%Z then (p * 10 ^ (k - n), q)%Z
                 else (p, q * 10 ^ (n - k))%Z in
  let lo := (P / Q)%Z in
  let r := (P mod Q)%Z in
  if (r =? 0)%Z then [lo]
  else if (2 * r <? Q)%Z then [lo; lo + 1]%Z
  else if (Q <? 2 * r)%Z then [lo + 1; lo]%Z
  else if Z.even lo then [lo; lo + 1]%Z else [lo + 1; lo]%Z.

(** Number::toString, step 5: the shortest digit string [s] (of [k] digits)
    and the exponent [n] whose value reads back as [x]. *)
Fixpoint shortest (fuel : nat) (x : float) (p q n k : Z) : Z * Z * Z :=
  let ok := filter (fun s => PrimFloat.eqb (read_back s (n - k)) x
                             && (10 ^ (k - 1) <=? s)%Z)
                   (candidates p q n k) in
  match ok, fuel with
  | s :: _, _ =>
      if (s =? 10 ^ k)%Z then (10 ^ (k - 1), k, n + 1)%Z else (s, k, n)
  | [], S f => shortest f x p q n (k + 1)
  | [], O => (hd 0%Z (candidates p q n k), k, n)
  end.

Definition format_decimal (s k n : Z) : list ascii :=
  let ds := digits s in
  let exp_part (e : Z) :=
    "e"%char :: (if (0 <=? e)%Z then "+"%char else "-"%char)
             :: digits (Z.abs e) in
  if ((k <=? n) && (n <=? 21))%Z then ds ++ zeros (n - k)
  else if ((0 <? n) && (n <=? 21))%Z then
    firstn (Z.to_nat n) ds ++ "."%char :: skipn (Z.to_nat n) ds
  else if ((-6 <? n) && (n <=? 0))%Z then
    "0"%char :: "."%char :: zeros (- n) ++ ds
  else if (k =? 1)%Z then ds ++ exp_part (n - 1)%Z
  else firstn 1 ds ++ "."%char :: skipn 1 ds ++ exp_part (n - 1)%Z.

(** [String(x)] for a number [x] (Number::toString, radix 10). *)
Definition Number_toString (x : float) : string :=
  if is_nan x then "NaN"
  else if is_zero x then "0"
  else if is_infinity x then
    (if PrimFloat.ltb x zero then "-Infinity" else "Infinity")
  else
    let '(neg, p, q) := exact_value x in
    let '(s, k, n) := shortest 17 (abs x) p q (decimal_exponent p q) 1 in
    string_of_list_ascii
      ((if neg then ["-"%char] else []) ++ format_decimal s k n)%list.

(** [x.toFixed(2)] (Number.prototype.toFixed with two fraction digits). *)
Definition toFixed2 (x : float) : string :=
  if negb (is_finite x) then Number_toString x
  else if PrimFloat.leb 0x1.b1ae4d6e2ef5p+69 (abs x) (* 10^21 *)
  then Number_toString x
  else
    let '(_, p, q) := exact_value x in
    let n := ((200 * p + q) / (2 * q))%Z in
    let m := digits n in
    let m := (zeros (3 - Z.of_nat (List.length m)) ++ m)%list in
    let k := List.length m in
    string_of_list_ascii
      ((if PrimFloat.ltb x zero then ["-"%char] else [])
         ++ firstn (k - 2) m ++ "."%char :: skipn (k - 2) m)%list.

(** ** Plain objects used as maps

    An object is the list of its own (key, value) entries in creation
    order.  [Object.keys] and [Object.entries] list the keys that are array
    indices first, in ascending numeric order, then the other keys in
    creation order (OrdinaryOwnPropertyKeys). *)

(** The array index a key denotes: a canonical decimal numeral below
    2^32 - 1. *)
Definition array_index (k : string) : option Z :=
  match list_ascii_of_string k with
  | [] => None
  | c :: r =>
      if forallb is_digit (c :: r)
         && (negb (code c =? 48)%nat || (List.length r =? 0)%nat)
      then let v := fst (fst (take_digits (c :: r) 0%Z 0)) in
           if (v <=? 4294967294)%Z then Some v else None
      else None
  end.

Section Objects.
Context {V : Type}.

Definition object := list (string * V).

Fixpoint own_get (o : object) (k : string) : option V :=
  match o with
  | [] => None
  | (k', v) :: r => if String.eqb k' k then Some v else own_get r k
  end.

(** [o[k] = v]: replaces the value of an own key, or creates the key
    after the existing ones. *)
Fixpoint own_set (o : object) (k : string) (v : V) : object :=
  match o with
  | [] => [(k, v)]
  | (k', v') :: r =>
      if String.eqb k' k then (k', v) :: r else (k', v') :: own_set r k v
  end.

Fixpoint insert_index (e : Z * (string * V)) (l : list (Z * (string * V)))
  : list (Z * (string * V)) :=
  match l with
  | [] => [e]
  | e' :: r =>
      if (fst e <? fst e')%Z then e :: l else e' :: insert_index e r
  end.

Definition index_entries (o : object) : list (Z * (string * V)) :=
  flat_map (fun e => match array_index (fst e) with
                     | Some i => [(i, e)]
                     | None => []
                     end) o.

Definition named_entries (o : object) : object :=
  filter (fun e => match array_index (fst e) with
                   | Some _ => false
                   | None => true
                   end) o.

(** [Object.entries(o)] *)
Definition entries (o : object) : list (string * V) :=
  map snd (fold_right insert_index [] (index_entries o)) ++ named_entries o.

(** [Object.keys(o)] *)
Definition keys (o : object) : list string := map fst (entries o).
End Objects.

Arguments object : clear implicits.

(** The members every plain object inherits from [Object.prototype].  Each
    of them is a function or an object, hence truthy. *)
Definition object_prototype_members : list string :=
  [ "constructor"; "__defineGetter__"; "__defineSetter__"; "hasOwnProperty";
    "__lookupGetter__"; "__lookupSetter__"; "isPrototypeOf";
    "propertyIsEnumerable"; "toString"; "valueOf"; "__proto__";
    "toLocaleString" ].

Definition inherited (k : string) : bool :=
  existsb (String.eqb k) object_prototype_members.

End JS.

(* ================================================================== *)
(** * Data model                                                       *)
(* ================================================================== *)

(** The scalar values a record holds ([unknown] in the source, the scalars
    of the data model in the specification).  [VUndefined] is what reading
    an absent column gives. *)
Inductive value :=
| VUndefined
| VNull
| VBool (b : bool)
| VNum (x : float)
| VStr (s : string).

(** [DatasetRow = Record<string, unknown>]: the own entries of the row, in
    [Object.keys] order.  The keys of an object are pairwise distinct; the
    one property that depends on it states it as a hypothesis. *)
Definition DatasetRow := list (string * value).

(** [row?.[column]].  A column that is not an own key and names a member of
    [Object.prototype] reads as that member, a function or an object; the
    two helpers below treat such a value exactly as they treat
    [undefined], which is what the lookup returns here. *)
Fixpoint get (row : DatasetRow) (column : string) : value :=
  match row with
  | [] => VUndefined
  | (k, v) :: r => if String.eqb k column then v else get r column
  end.

(** [v ?? d] *)
Definition coalesce (v d : value) : value :=
  match v with
  | VUndefined | VNull => d
  | _ => v
  end.

(** [String(v)] *)
Definition String_of (v : value) : string :=
  match v with
  | VUndefined => "undefined"
  | VNull => "null"
  | VBool true => "true"
  | VBool false => "false"
  | VNum x => JS.Number_toString x
  | VStr s => s
  end.

Definition ATTRITION_FIELD : string := "Attrition".
Definition DEPARTMENT_FIELD : string := "Department".
Definition IGNORE_NUMERIC_COLUMNS : list string :=
  ["employeenumber"; "employeeid"].

Definition isNumericLike (v : value) : bool :=
  match v with
  | VNull | VUndefined => false
  | VNum x => JS.isFinite x
  | VStr s =>
      let trimmed := JS.trim s in
      if String.eqb trimmed "" then false
      else negb (JS.isNaN (JS.Number trimmed))
  | _ => false
  end.

Definition toNumber (v : value) : float :=
  match v with
  | VNum x => if JS.isFinite x then x else zero
  | VStr s =>
      let parsed := JS.Number s in
      if JS.isFinite parsed then parsed else zero
  | _ => zero
  end.

(** [AnalyzePayload].  A field is [None] when it is absent from the body or
    fails the type test of the first guard ([Array.isArray],
    [typeof ... === "number"]).  The index is an integer, as the input
    contract of the specification has it. *)
Record AnalyzePayload := {
  dataset : option (list DatasetRow);
  index : option Z
}.

(* ================================================================== *)
(** * The arithmetic of the engine                                     *)
(* ================================================================== *)

(** The numbers the engine computes with, and the operations it applies to
    them.  [of_double] reads a finite double (a coerced cell) as a number,
    [of_nat] a counter or a length, [round2 x] is
    [Number(x.toFixed(2))], and [seven_tenths] is the literal [0.7]. *)
Record Arith := {
  num : Type;
  zero : num;
  add : num -> num -> num;
  sub : num -> num -> num;
  mul : num -> num -> num;
  div : num -> num -> num;
  sqrt : num -> num;
  ltb : num -> num -> bool;
  leb : num -> num -> bool;
  of_nat : nat -> num;
  of_double : float -> num;
  round2 : num -> num;
  seven_tenths : num
}.

(** IEEE-754 binary64, the arithmetic of the runtime. *)
Definition ieee : Arith := {|
  num := float;
  zero := PrimFloat.zero;
  add := PrimFloat.add;
  sub := PrimFloat.sub;
  mul := PrimFloat.mul;
  div := PrimFloat.div;
  sqrt := PrimFloat.sqrt;
  ltb := PrimFloat.ltb;
  leb := PrimFloat.leb;
  of_nat := JS.of_nat;
  of_double := fun x => x;
  round2 := fun x => JS.Number (JS.toFixed2 x);
  seven_tenths := 0x1.6666666666666p-1%float
|}.

(* ================================================================== *)
(** * The handler                                                      *)
(* ================================================================== *)

(** [Array.prototype.map] and [reduce] with the position passed to the
    callback. *)
Fixpoint mapi_from {X Y : Type} (i : nat) (f : X -> nat -> Y) (l : list X)
  : list Y :=
  match l with
  | [] => []
  | x :: r => f x i :: mapi_from (S i) f r
  end.

Definition mapi {X Y : Type} (f : X -> nat -> Y) (l : list X) : list Y :=
  mapi_from 0 f l.

Fixpoint reducei_from {X Y : Type} (i : nat) (f : Y -> X -> nat -> Y)
  (l : list X) (acc : Y) : Y :=
  match l with
  | [] => acc
  | x :: r => reducei_from (S i) f r (f acc x i)
  end.

Definition reducei {X Y : Type} (f : Y -> X -> nat -> Y) (l : list X)
  (acc : Y) : Y :=
  reducei_from 0 f l acc.

(** All results of a list of computations, or the first failure. *)
Fixpoint sequence {X : Type} (l : list (option X)) : option (list X) :=
  match l with
  | [] => Some []
  | None :: _ => None
  | Some x :: r => option_map (cons x) (sequence r)
  end.

(** ** The pass over the dataset (lines 79-90) *)

Record DeptStats := { stat_count : nat; stat_attr : nat }.

Definition attrited (row : DatasetRow) : bool :=
  let attrRaw :=
    JS.toLowerCase (String_of (coalesce (get row ATTRITION_FIELD) (VStr "")))
  in
  String.eqb attrRaw "yes" || String.eqb attrRaw "1"
  || String.eqb attrRaw "true".

Definition department_of (row : DatasetRow) : string :=
  String_of (coalesce (get row DEPARTMENT_FIELD) (VStr "Unknown Department")).

(** One iteration of [dataset.forEach].  The state is [attritionCount] and
    the own entries of [departmentStats].

    [departmentStats] is a plain object.  When [department] names a member
    of [Object.prototype], [departmentStats[department]] reads that member:
    it is truthy, so no entry is created, and the two increments are
    applied to the inherited function or object, not to an own entry. *)
Definition forEach_body (st : nat * JS.object DeptStats) (row : DatasetRow)
  : nat * JS.object DeptStats :=
  let '(attritionCount, departmentStats) := st in
  let attritionCount := if attrited row then S attritionCount
                        else attritionCount in
  let department := department_of row in
  if JS.inherited department then (attritionCount, departmentStats) else
  let departmentStats :=
    match JS.own_get departmentStats department with
    | None =>
        JS.own_set departmentStats department
                   {| stat_count := 0; stat_attr := 0 |}
    | Some _ => departmentStats
    end in
  let bump (f : DeptStats -> DeptStats) (o : JS.object DeptStats) :=
    match JS.own_get o department with
    | Some e => JS.own_set o department (f e)
    | None => o
    end in
  let departmentStats :=
    bump (fun e => {| stat_count := S (stat_count e);
                      stat_attr := stat_attr e |}) departmentStats in
  let departmentStats :=
    if attrited row
    then bump (fun e => {| stat_count := stat_count e;
                           stat_attr := S (stat_attr e) |}) departmentStats
    else departmentStats in
  (attritionCount, departmentStats).

Definition forEach (dataset : list DatasetRow) : nat * JS.object DeptStats :=
  fold_left forEach_body dataset (0, []).

Definition attritionCount (dataset : list DatasetRow) : nat :=
  fst (forEach dataset).

Definition departmentStats (dataset : list DatasetRow)
  : JS.object DeptStats :=
  snd (forEach dataset).

(** [Object.keys(dataset[0] ?? {})] *)
Definition candidateColumns (dataset : list DatasetRow) : list string :=
  map fst (hd [] dataset).

(** The [reduce] of line 105. *)
Definition numericCount (dataset : list DatasetRow) (column : string) : nat :=
  fold_left (fun acc row => if isNumericLike (get row column) then S acc
                            else acc) dataset 0.

Section Engine.
Variable Ar : Arith.

Local Abbreviation A := (num Ar) (only parsing).

Record DepartmentSummary := {
  department : string;
  count : nat;
  dept_attritionRate : A
}.

Record SimilarEmployee := {
  se_index : nat;
  distance : A;
  se_row : DatasetRow
}.

Record AnalyzeResponse := {
  summary_total : nat;
  summary_attritionRate : A;
  summary_topDepartments : list DepartmentSummary;
  summary_numericCols : list string;
  resp_employee : DatasetRow;
  resp_similar : list SimilarEmployee
}.

(** ** [Array.prototype.sort(comparefn)]

    The sort is stable.  Elements are taken from left to right and each
    is put in front of the first element of the sorted part that
    [comparefn] ranks after it. *)
Section Sort.
Context {X : Type} (comparefn : X -> X -> A).

Fixpoint sort_insert (x : X) (sorted : list X) : list X :=
  match sorted with
  | [] => [x]
  | y :: r =>
      if ltb Ar (comparefn x y) (zero Ar) then x :: sorted
      else y :: sort_insert x r
  end.

Definition sort (l : list X) : list X :=
  fold_left (fun acc x => sort_insert x acc) l [].
End Sort.

(** [Number(((a / b) * 100).toFixed(2))] *)
Definition percentage (a b : nat) : A :=
  round2 Ar (mul Ar (div Ar (of_nat Ar a) (of_nat Ar b)) (of_nat Ar 100)).

Definition total (dataset : list DatasetRow) : nat := List.length dataset.

Definition attritionRate (dataset : list DatasetRow) : A :=
  percentage (attritionCount dataset) (total dataset).

Definition topDepartments (dataset : list DatasetRow)
  : list DepartmentSummary :=
  firstn 5
    (sort (fun a b => sub Ar (dept_attritionRate b) (dept_attritionRate a))
       (map (fun e => {| department := fst e;
                         count := stat_count (snd e);
                         dept_attritionRate :=
                           percentage (stat_attr (snd e))
                                      (stat_count (snd e)) |})
            (JS.entries (departmentStats dataset)))).

Definition numericCols (dataset : list DatasetRow) : list string :=
  filter (fun column =>
            if existsb (String.eqb (JS.toLowerCase column))
                       IGNORE_NUMERIC_COLUMNS
            then false
            else leb Ar (seven_tenths Ar)
                     (div Ar (of_nat Ar (numericCount dataset column))
                             (of_nat Ar (total dataset))))
         (candidateColumns dataset).

Definition numericMatrix (dataset : list DatasetRow) : list (list A) :=
  map (fun row =>
         map (fun column => of_double Ar (toNumber (get row column)))
             (numericCols dataset))
      dataset.

(** [numericRow[columnIndex] ?? 0] *)
Definition cell (numericRow : list A) (columnIndex : nat) : A :=
  nth columnIndex numericRow (zero Ar).

Definition means (dataset : list DatasetRow) : list A :=
  mapi (fun _ columnIndex =>
          let sum :=
            fold_left (fun acc numericRow =>
                         add Ar acc (cell numericRow columnIndex))
                      (numericMatrix dataset) (zero Ar) in
          div Ar sum (of_nat Ar (List.length (numericMatrix dataset))))
       (numericCols dataset).

(** [x ** 2], taken as the product of [x] with itself. *)
Definition square (x : A) : A := mul Ar x x.

Definition stdDevs (dataset : list DatasetRow) : list A :=
  mapi (fun _ columnIndex =>
          let mean := nth columnIndex (means dataset) (zero Ar) in
          let variance :=
            div Ar
              (fold_left (fun acc numericRow =>
                            let value := cell numericRow columnIndex in
                            add Ar acc (square (sub Ar value mean)))
                         (numericMatrix dataset) (zero Ar))
              (of_nat Ar (List.length (numericMatrix dataset))) in
          let std := sqrt Ar variance in
          if ltb Ar (zero Ar) std then std else of_nat Ar 1)
       (numericCols dataset).

Definition normalizedMatrix (dataset : list DatasetRow) : list (list A) :=
  map (fun numericRow =>
         mapi (fun value columnIndex =>
                 div Ar (sub Ar value (nth columnIndex (means dataset) (zero Ar)))
                        (nth columnIndex (stdDevs dataset) (zero Ar)))
              numericRow)
      (numericMatrix dataset).

(** The distance of one row to [target].  [None] is the [TypeError] that
    reading [target[columnIndex]] raises when [target] is [undefined]. *)
Definition distance_to (target : option (list A)) (numericRow : list A)
  : option A :=
  option_map (sqrt Ar)
    (reducei (fun acc value columnIndex =>
                match acc, target with
                | Some acc, Some target =>
                    let diff := sub Ar value (cell target columnIndex) in
                    Some (add Ar acc (mul Ar diff diff))
                | _, _ => None
                end)
             numericRow (Some (zero Ar))).

Definition distances (dataset : list DatasetRow) (index : nat)
  : option (list SimilarEmployee) :=
  let target := nth_error (normalizedMatrix dataset) index in
  option_map (sort (fun a b => sub Ar (distance a) (distance b)))
    (sequence
       (mapi (fun numericRow rowIndex =>
                option_map (fun d => {| se_index := rowIndex;
                                        distance := d;
                                        se_row := nth rowIndex dataset [] |})
                           (distance_to target numericRow))
             (normalizedMatrix dataset))).

Definition similar (dataset : list DatasetRow) (index : nat)
  : option (list SimilarEmployee) :=
  option_map (fun distances =>
                firstn 10 (filter (fun entry =>
                                     negb (se_index entry =? index)%nat)
                                  distances))
             (distances dataset index).

(** Lines 75-156: the computation on validated input. *)
Definition analyze (dataset : list DatasetRow) (index : nat)
  : option AnalyzeResponse :=
  option_map (fun similar =>
                {| summary_total := total dataset;
                   summary_attritionRate := attritionRate dataset;
                   summary_topDepartments := topDepartments dataset;
                   summary_numericCols := numericCols dataset;
                   resp_employee := nth index dataset [];
                   resp_similar := similar |})
             (similar dataset index).

(** What the handler answers. *)
Inductive Response :=
| Status400 (error : string)
| Status500 (error : string)
| Status200 (body : AnalyzeResponse).

Definition POST (body : AnalyzePayload) : Response :=
  match dataset body, index body with
  | Some dataset, Some index =>
      if (List.length dataset =? 0)%nat then
        Status400 "Dataset is empty."
      else if ((index <? 0) || (Z.of_nat (List.length dataset) <=? index))%Z
      then Status400 "Selected employee index is out of bounds."
      else
        match analyze dataset (Z.to_nat index) with
        | Some response => Status200 response
        | None => Status500 "Unable to analyze dataset."
        end
  | _, _ => Status400 "Payload must include dataset[] and numeric index."
  end.

End Engine.

Arguments department {Ar}.
Arguments count {Ar}.
Arguments dept_attritionRate {Ar}.
Arguments se_index {Ar}.
Arguments distance {Ar}.
Arguments se_row {Ar}.
Arguments Status400 {Ar}.
Arguments Status500 {Ar}.
Arguments Status200 {Ar}.

(** ** Exact arithmetic

    The same operations on the real numbers: no rounding, no overflow.
    [Number(x.toFixed(2))] is the nearest multiple of 1/100, a half going
    away from zero as [toFixed] has it. *)

Definition Rltb (a b : R) : bool := if Rlt_dec a b then true else false.
Definition Rleb (a b : R) : bool := if Rle_dec a b then true else false.

Definition real_of_double (x : float) : R :=
  let '(neg, p, q) := JS.exact_value x in
  ((if neg then -1 else 1) * IZR p / IZR q)%R.

Definition round_hundredths (x : R) : R :=
  if Rlt_dec x 0
  then (- (IZR (Int_part (100 * - x + / 2)) / 100))%R
  else (IZR (Int_part (100 * x + / 2)) / 100)%R.

Definition exact : Arith := {|
  num := R;
  zero := 0%R;
  add := Rplus;
  sub := Rminus;
  mul := Rmult;
  div := Rdiv;
  sqrt := R_sqrt.sqrt;
  ltb := Rltb;
  leb := Rleb;
  of_nat := INR;
  of_double := real_of_double;
  round2 := round_hundredths;
  seven_tenths := (7 / 10)%R
|}.

(* ================================================================== *)
(** * The strategy route ([src/unnamed/part_000], lines 1-183)         *)
(* ================================================================== *)

(** [x.toFixed(fractionDigits)] for [0 <= fractionDigits <= 100]
    (Number.prototype.toFixed): the integer [n] nearest to
    [x * 10 ^ fractionDigits], the larger one of two, written with the
    decimal point before its last [fractionDigits] digits. *)
Definition toFixed (fractionDigits : nat) (x : float) : string :=
  if negb (is_finite x) then JS.Number_toString x
  else if PrimFloat.leb 0x1.b1ae4d6e2ef5p+69 (PrimFloat.abs x) (* 10^21 *)
  then JS.Number_toString x
  else
    let f := Z.of_nat fractionDigits in
    let '(_, p, q) := JS.exact_value x in
    let n := ((2 * 10 ^ f * p + q) / (2 * q))%Z in
    let m := JS.digits n in
    let m := (JS.zeros (f + 1 - Z.of_nat (List.length m)) ++ m)%list in
    let k := List.length m in
    string_of_list_ascii
      ((if PrimFloat.ltb x PrimFloat.zero then ["-"%char] else [])
         ++ firstn (k - fractionDigits) m
         ++ (if (fractionDigits =? 0)%nat then []
             else "."%char :: skipn (k - fractionDigits) m))%list.

(** [haystack.includes(needle)], which is also [/needle/.test(haystack)]
    for a pattern of literal characters. *)
Fixpoint includes (haystack needle : string) : bool :=
  String.prefix needle haystack
  || match haystack with
     | EmptyString => false
     | String _ rest => includes rest needle
     end.

Module Generate.

Local Open Scope string_scope.

(** ** [GeneratePayload]

    The body is taken at its declared type.  A field is [None] when it is
    absent or [null]; the optional chaining and the [??] of the source
    treat the two alike. *)

Record TopDepartment := {
  department : string;
  attritionRate : float;
  count : float
}.

Record Summary := {
  total : option float;
  summary_attritionRate : option float;
  topDepartments : option (list TopDepartment);
  numericCols : option (list string)
}.

Record Neighbour := {
  index : float;
  distance : float;
  row : DatasetRow
}.

Record Analysis := {
  summary : option Summary;
  analysis_employee : option DatasetRow;
  similar : option (list Neighbour)
}.

Record GeneratePayload := {
  employee : option DatasetRow;
  analysis : option Analysis
}.

(** ** [buildPrompt] (lines 23-73) *)

Definition newline : string := String (ascii_of_nat 10) "".

(** [parts.join(separator)] on an array of strings. *)
Definition join (separator : string) (parts : list string) : string :=
  String.concat separator parts.

(** [${x ?? "unknown"}] for an optional number. *)
Definition number_or_unknown (x : option float) : string :=
  match x with
  | Some v => JS.Number_toString v
  | None => "unknown"
  end.

(** [summary?.field] *)
Definition field {X : Type} (summary : option Summary)
  (f : Summary -> option X) : option X :=
  match summary with
  | Some s => f s
  | None => None
  end.

Definition summaryLines (summary : option Summary) : string :=
  join newline
    [ "Dataset summary: total rows = "
        ++ number_or_unknown (field summary total)
        ++ ", overall attrition rate = "
        ++ number_or_unknown (field summary summary_attritionRate) ++ "%";
      "Top departments by attrition: "
        ++ match field summary topDepartments with
           | Some ((_ :: _) as departments) =>
               join ", "
                 (map (fun d =>
                         department d ++ " ("
                           ++ JS.Number_toString (attritionRate d)
                           ++ "% over " ++ JS.Number_toString (count d)
                           ++ " employees)")
                      departments)
           | _ => "not available"
           end;
      "Numeric columns used for similarity: "
        ++ match field summary numericCols with
           | Some ((_ :: _) as columns) => join ", " columns
           | _ => "none"
           end ].

Definition employeeLines (employee : DatasetRow) : string :=
  join newline
    (map (fun '(key, value) => "- " ++ key ++ ": " ++ String_of value)
         employee).

Definition similarLine (entry : Neighbour) : string :=
  let parts := [ "idx " ++ JS.Number_toString (index entry);
                 "distance " ++ toFixed 3 (distance entry) ] in
  let attrition :=
    coalesce (get (row entry) "Attrition") (get (row entry) "attrition") in
  let parts :=
    match attrition with
    | VUndefined => parts
    | _ => (parts ++ [ ("attrition: " ++ String_of attrition)%string ])%list
    end in
  join " | " parts ++ " -> "
    ++ join ", "
         (map (fun '(key, value) => key ++ ": " ++ String_of value)
              (firstn 6 (row entry))).

(** [similar?.slice(0, 5).map(...).join("\n") || "Not available"] *)
Definition similarLines (similar : option (list Neighbour)) : string :=
  match similar with
  | Some entries =>
      let text := join newline (map similarLine (firstn 5 entries)) in
      if String.eqb text "" then "Not available" else text
  | None => "Not available"
  end.

Definition buildPrompt (employee : DatasetRow) (analysis : Analysis)
  : string :=
  join newline
    [ "You are an HR analytics assistant.";
      "";
      summaryLines (summary analysis);
      "";
      "We have a target employee with the following attributes:";
      employeeLines employee;
      "";
      "Here are the top 5 most similar employees from historical data:";
      similarLines (similar analysis);
      "";
      "The target employee is considered valuable to retain.";
      "";
      "Produce 3 concise, high-leverage retention strategies. Each strategy must:";
      "- be personalized to the employee attributes,";
      "- reference one or more signals from the dataset,";
      "- include an action owner, next step, and expected timeline,";
      "- provide one KPI with an initial benchmark and desired outcome.";
      "";
      "Return the response as a numbered list (1., 2., 3.). Limit each strategy to at most 6 lines." ].

(** ** The models tried (lines 75-96) *)

Definition MODEL_FALLBACK_CHAIN : list string :=
  [ "gemini-2.0-flash";
    "gemini-2.0-flash-exp";
    "gemini-1.5-flash-latest";
    "gemini-1.5-flash";
    "gemini-1.5-flash-8b";
    "gemini-1.5-pro";
    "gemini-pro";
    "gemini-1.0-pro-latest" ].

(** What a [try] block throws: an [Error] with its message, or any other
    value, of which only the truthiness is looked at. *)
Inductive thrown :=
| ErrorObject (message : string)
| OtherValue (truthy : bool).

Definition normalizeErrorMessage (error : thrown) : string :=
  match error with
  | ErrorObject message => message
  | OtherValue _ => "Unexpected error occurred while contacting Gemini."
  end.

(** [/404/.test(message) && /model/i.test(message)].  Without the [u]
    flag, [i] folds only the letters A-Z onto the pattern's a-z. *)
Definition isModelNotFound (error : thrown) : bool :=
  match error with
  | ErrorObject message =>
      includes message "404" && includes (JS.toLowerCase message) "model"
  | OtherValue _ => false
  end.

(** ** The environment and the service *)

Record Env := {
  GOOGLE_API_KEY : option string;
  GEMINI_MODEL : option string
}.

(** What the body of the inner [try] does for one model: the generated
    text, or the value thrown by the client library on the way.  It is
    given the API key, the model name and the prompt; the other settings
    of the call are constants. *)
Definition Service := string -> string -> string -> string + thrown.

(** [Boolean(model)] for a string or [undefined]. *)
Definition Boolean (model : option string) : bool :=
  match model with
  | Some (String _ _) => true
  | _ => false
  end.

(** [Array.from(new Set(models))]: a [Set] keeps the first insertion of
    each value, in insertion order. *)
Fixpoint Array_from_Set (models : list string) : list string :=
  match models with
  | [] => []
  | m :: rest =>
      m :: filter (fun m' => negb (String.eqb m' m)) (Array_from_Set rest)
  end.

Definition preferredModel (env : Env) : option string :=
  option_map JS.trim (GEMINI_MODEL env).

Definition modelCandidates (env : Env) : list string :=
  Array_from_Set
    (flat_map (fun model => match model with
                            | Some m => if Boolean model then [m] else []
                            | None => []
                            end)
              (preferredModel env :: map Some MODEL_FALLBACK_CHAIN)).

(** ** [POST] (lines 98-183)

    The outer [catch] (500 with the normalized message) is reached when
    the body is not JSON of the declared type; on a body of that type
    nothing outside the inner [try] throws. *)

Record Attempt := {
  model : string;
  message : string
}.

Inductive Response :=
| Status200 (strategy : string) (model : string)
| Status400 (error : string)
| Status500 (error : string)
| Status502 (error : string) (attempts : list Attempt).

Definition quote : string := String (ascii_of_nat 34) "".

Definition unavailable (lastError : option thrown) : string :=
  JS.trim
    ("Gemini model unavailable. Set GEMINI_MODEL to a supported value (e.g. "
       ++ quote ++ "gemini-1.5-flash-latest" ++ quote
       ++ ") or verify access in Google AI Studio. "
       ++ match lastError with
          | Some ((ErrorObject _) as error)
          | Some ((OtherValue true) as error) =>
              "Last error: " ++ normalizeErrorMessage error
          | _ => ""
          end).

(** The [for ... of] loop over the candidates, with the two variables it
    updates. *)
Fixpoint tryModels (generate : string -> string + thrown)
  (candidates : list string) (lastError : option thrown)
  (attemptErrors : list Attempt) : Response :=
  match candidates with
  | [] => Status502 (unavailable lastError) attemptErrors
  | modelName :: rest =>
      match generate modelName with
      | inl text => Status200 text modelName
      | inr error =>
          let attemptErrors :=
            (attemptErrors
               ++ [ {| model := modelName;
                       message := normalizeErrorMessage error |} ])%list in
          if isModelNotFound error
          then tryModels generate rest (Some error) attemptErrors
          else Status502 (normalizeErrorMessage error) attemptErrors
      end
  end.

Definition POST (env : Env) (service : Service) (body : GeneratePayload)
  : Response :=
  match employee body, analysis body with
  | Some employee, Some analysis =>
      match GOOGLE_API_KEY env with
      | Some ((String _ _) as apiKey) =>
          let prompt := buildPrompt employee analysis in
          tryModels (fun modelName => service apiKey modelName prompt)
                    (modelCandidates env) None []
      | _ =>
          Status500
            "Missing GOOGLE_API_KEY. Set it in your environment or .env.local file."
      end
  | _, _ => Status400 "Request must include employee and analysis payloads."
  end.

End Generate.

(* ================================================================== *)
(** * The page ([src/app/page.tsx])                                    *)
(* ================================================================== *)

Module Page.

Local Open Scope string_scope.

(** [CsvRow]: a record of scalars, in [Object.keys] order. *)
Definition CsvRow := DatasetRow.

(** [ToBoolean] *)
Definition truthy (v : value) : bool :=
  match v with
  | VUndefined | VNull => false
  | VBool b => b
  | VNum x => negb (is_zero x || is_nan x)
  | VStr s => negb (String.eqb s "")
  end.

(** Lines 41-48. *)
Definition buildEmployeeLabel (row : CsvRow) (index : nat) : string :=
  let employeeNumber :=
    coalesce (coalesce (get row "EmployeeNumber") (get row "employeeNumber"))
             (VNum (JS.of_nat index)) in
  let department :=
    coalesce (coalesce (get row "Department") (get row "department"))
             (VStr "Department N/A") in
  let role :=
    coalesce (coalesce (get row "JobRole") (get row "jobRole"))
             (VStr "Role N/A") in
  let name := coalesce (get row "EmployeeName") (get row "employeeName") in
  let displayName :=
    if truthy name then String_of name
    else "Employee " ++ String_of employeeNumber in
  displayName ++ " — " ++ String_of role ++ " (" ++ String_of department
    ++ ") [#" ++ JS.Number_toString (JS.of_nat index) ++ "]".

(** Line 50. *)
Definition formatPercent (value : float) : string :=
  toFixed 2 value ++ "%".

Record EmployeeOption := {
  index : nat;
  label : string;
  labelLower : string;
  row : CsvRow
}.

(** The part of the component state the selection depends on. *)
Record State := {
  csvData : list CsvRow;
  selectedIndex : option nat;
  searchTerm : string
}.

(** What the user and the parser do to the component: the [complete]
    callback of [Papa.parse], typing in the search box, a click on the
    entry at a position of the list, and a change of the [select] to its
    placeholder or to the option at a position. *)
Inductive Event :=
| Parsed (rows : list CsvRow)
| Search (term : string)
| Click (position : nat)
| Choose (position : option nat).

(** What [JSON.stringify] followed by [JSON.parse] makes of a value: a
    property that is [undefined] is dropped, a number that is not finite
    becomes [null], and the sign of a zero is lost. *)
Definition JSON_value (v : value) : option value :=
  match v with
  | VUndefined => None
  | VNum x =>
      Some (if is_finite x
            then (if is_zero x then VNum PrimFloat.zero else VNum x)
            else VNull)
  | _ => Some v
  end.

Definition JSON_row (row : CsvRow) : DatasetRow :=
  flat_map (fun '(key, v) => match JSON_value v with
                             | Some v' => [(key, v')]
                             | None => []
                             end)
           row.

Section Component.

(** [String.prototype.toLowerCase], on all of Unicode. *)
Variable toLowerCase : string -> string.

(** Lines 66-76. *)
Definition employeeOptions (csvData : list CsvRow) : list EmployeeOption :=
  mapi (fun row index =>
          let label := buildEmployeeLabel row index in
          {| index := index;
             label := label;
             labelLower := toLowerCase label;
             row := row |})
       csvData.

(** The callback of the [filter] of line 84. *)
Definition matches (term : string) (option : EmployeeOption) : bool :=
  includes (labelLower option) term
  || String.eqb (JS.Number_toString (JS.of_nat (index option))) term.

(** Lines 78-86. *)
Definition filteredEmployees (s : State) : list EmployeeOption :=
  if String.eqb (searchTerm s) "" then
    firstn 25 (employeeOptions (csvData s))
  else
    let term := toLowerCase (searchTerm s) in
    firstn 50 (filter (matches term) (employeeOptions (csvData s))).

(** Lines 96-104. *)
Definition handleParsedData (rows : list CsvRow) (s : State) : State :=
  let validRows :=
    filter (fun row => (0 <? List.length (map fst row))%nat) rows in
  {| csvData := validRows;
     selectedIndex :=
       if (List.length validRows =? 0)%nat then None else Some 0;
     searchTerm := searchTerm s |}.

Definition setSelectedIndex (i : option nat) (s : State) : State :=
  {| csvData := csvData s; selectedIndex := i; searchTerm := searchTerm s |}.

Definition setSearchTerm (term : string) (s : State) : State :=
  {| csvData := csvData s;
     selectedIndex := selectedIndex s;
     searchTerm := term |}.

(** The handlers of the events.  The value of an [option] element is the
    index as a string; [Number] reads the index back from it. *)
Definition step (s : State) (e : Event) : State :=
  match e with
  | Parsed rows => handleParsedData rows s
  | Search term => setSearchTerm term s
  | Click position =>
      match nth_error (filteredEmployees s) position with
      | Some option => setSelectedIndex (Some (index option)) s
      | None => s
      end
  | Choose None => setSelectedIndex None s
  | Choose (Some position) =>
      match nth_error (filteredEmployees s) position with
      | Some option => setSelectedIndex (Some (index option)) s
      | None => s
      end
  end.

Definition initial : State :=
  {| csvData := []; selectedIndex := None; searchTerm := "" |}.

Definition run (events : list Event) : State :=
  fold_left step events initial.

(** The body [analyzeSelectedEmployee] posts to [/api/analyze], as the
    route reads it; [None] when the guard of line 145 returns before any
    request is made. *)
Definition analyzeRequest (s : State) : option AnalyzePayload :=
  match csvData s, selectedIndex s with
  | _ :: _, Some i =>
      Some (Build_AnalyzePayload (Some (map JSON_row (csvData s)))
                                 (Some (Z.of_nat i)))
  | _, _ => None
  end.

End Component.

End Page.

(* ================================================================== *)
(** * Vocabulary of the properties                                     *)
(* ================================================================== *)

(** The number of records whose value in [column] is numeric-like. *)
Definition numeric_like_count (D : list DatasetRow) (column : string) : nat :=
  List.length (filter (fun row => isNumericLike (get row column)) D).

(** The lower-cased name is one of [IGNORE_NUMERIC_COLUMNS]. *)
Definition excluded (column : string) : Prop :=
  In (JS.toLowerCase column) IGNORE_NUMERIC_COLUMNS.

Definition excludedb (column : string) : bool :=
  existsb (String.eqb (JS.toLowerCase column)) IGNORE_NUMERIC_COLUMNS.

(** [count / total >= 0.7], as the arithmetic evaluates it. *)
Definition clears_threshold (Ar : Arith) (D : list DatasetRow)
  (column : string) : bool :=
  leb Ar (seven_tenths Ar)
      (div Ar (of_nat Ar (numeric_like_count D column))
              (of_nat Ar (List.length D))).

(** The test of the [filter] callback of lines 103-107. *)
Definition qualifies (Ar : Arith) (D : list DatasetRow) (column : string)
  : bool :=
  negb (excludedb column) && clears_threshold Ar D column.

(** The attrition test in the words of the specification: the field,
    converted to text and lower-cased, is "yes", "1" or "true". *)
Definition says_yes (v : value) : bool :=
  existsb (String.eqb (JS.toLowerCase (String_of v))) ["yes"; "1"; "true"].

(** The distinct elements of a list, in the order of their first
    occurrence. *)
Fixpoint first_occurrences (l : list string) : list string :=
  match l with
  | [] => []
  | x :: r => x :: filter (fun y => negb (String.eqb y x)) (first_occurrences r)
  end.

(** The department labels that get an own entry in [departmentStats]: the
    label of each record, unless it names a member of [Object.prototype]. *)
Definition labels (D : list DatasetRow) : list string :=
  filter (fun d => negb (JS.inherited d)) (map department_of D).

(** The records of a department, and those among them that count as
    attrition. *)
Definition label_count (D : list DatasetRow) (d : string) : nat :=
  List.length (filter (fun row => String.eqb (department_of row) d) D).

Definition label_attr (D : list DatasetRow) (d : string) : nat :=
  List.length
    (filter (fun row => String.eqb (department_of row) d && attrited row) D).

(** The keys after [x] is used as a key: a new key goes to the end. *)
Definition add_key (acc : list string) (x : string) : list string :=
  if existsb (String.eqb x) acc then acc else acc ++ [x].

(** The order in which [Object.keys] lists keys created in the order
    [created]: array indices first, ascending, then the other keys as
    created. *)
Definition object_key_order (created : list string) : list string :=
  JS.keys (map (fun k => (k, tt)) created).

(** [x] is listed before [y] in [l]. *)
Definition listed_before (l : list string) (x y : string) : Prop :=
  exists l1 l2 l3, l = l1 ++ x :: l2 ++ y :: l3.

Section Vocabulary.
Variable Ar : Arith.

(** The sum of squared differences the [reduce] of line 136 accumulates. *)
Definition sum_squares (numericRow target : list (num Ar)) : num Ar :=
  reducei (fun acc value columnIndex =>
             let diff := sub Ar value (cell Ar target columnIndex) in
             add Ar acc (mul Ar diff diff))
          numericRow (zero Ar).

(** The entry of one row before sorting. *)
Definition entry_of (D : list DatasetRow) (target : list (num Ar))
  (numericRow : list (num Ar)) (rowIndex : nat) : SimilarEmployee Ar :=
  {| se_index := rowIndex;
     distance := sqrt Ar (sum_squares numericRow target);
     se_row := nth rowIndex D [] |}.

(** The comparator of line 143. *)
Definition by_distance (a b : SimilarEmployee Ar) : num Ar :=
  sub Ar (distance a) (distance b).

(** On the numbers of [ds], the sign of a difference tells their order,
    and that order is a strict weak order. *)
Record comparator_consistent (ds : list (num Ar)) : Prop := {
  cc_sign : forall a b, In a ds -> In b ds ->
    ltb Ar (sub Ar a b) (zero Ar) = ltb Ar a b;
  cc_asym : forall a b, In a ds -> In b ds ->
    ltb Ar a b = true -> ltb Ar b a = false;
  cc_negtrans : forall a b c, In a ds -> In b ds -> In c ds ->
    ltb Ar a c = true -> ltb Ar a b = true \/ ltb Ar b c = true
}.

(** The same, checked by enumeration. *)
Definition comparator_consistentb (ds : list (num Ar)) : bool :=
  forallb (fun a =>
    forallb (fun b =>
      Bool.eqb (ltb Ar (sub Ar a b) (zero Ar)) (ltb Ar a b)
      && (negb (ltb Ar a b) || negb (ltb Ar b a))
      && forallb (fun c => negb (ltb Ar a c) || ltb Ar a b || ltb Ar b c) ds)
      ds) ds.

(** The Euclidean distance between two vectors of the same dimension. *)
Definition euclidean (u v : list (num Ar)) : num Ar :=
  sqrt Ar (fold_left (fun acc p =>
                        add Ar acc (mul Ar (sub Ar (fst p) (snd p))
                                           (sub Ar (fst p) (snd p))))
                     (combine u v) (zero Ar)).

(** The order of the positions in the dataset. *)
Definition index_lt (a b : SimilarEmployee Ar) : Prop :=
  se_index a < se_index b.

(** The distances the comparator of line 143 is applied to. *)
Definition distance_list (D : list DatasetRow) (i : nat) : list (num Ar) :=
  match nth_error (normalizedMatrix Ar D) i with
  | Some target =>
      map (fun v => sqrt Ar (sum_squares v target)) (normalizedMatrix Ar D)
  | None => []
  end.

(** [nearer a b]: [b] may follow [a] in the ranking: it is not closer to
    the target, and on a tie it has the larger position. *)
Definition nearer (a b : SimilarEmployee Ar) : Prop :=
  ltb Ar (distance b) (distance a) = false
  /\ (ltb Ar (distance a) (distance b) = false -> se_index a < se_index b).

(** The [map] callback of lines 94-98. *)
Definition summary_of (e : string * DeptStats) : DepartmentSummary Ar :=
  {| department := fst e;
     count := stat_count (snd e);
     dept_attritionRate := percentage Ar (stat_attr (snd e))
                                         (stat_count (snd e)) |}.

(** The summaries before sorting, in [Object.entries] order. *)
Definition summaries (D : list DatasetRow) : list (DepartmentSummary Ar) :=
  map summary_of (JS.entries (departmentStats D)).

(** The comparator of line 99. *)
Definition by_rate_desc (a b : DepartmentSummary Ar) : num Ar :=
  sub Ar (dept_attritionRate b) (dept_attritionRate a).

(** The rates the comparator of line 99 is applied to. *)
Definition rate_list (D : list DatasetRow) : list (num Ar) :=
  map dept_attritionRate (summaries D).

(** [ranked_by_rate D a b]: [b] may follow [a]: its rate is not higher, and
    on a tie its label comes later in the key order of [departmentStats]. *)
Definition ranked_by_rate (D : list DatasetRow) (a b : DepartmentSummary Ar)
  : Prop :=
  ltb Ar (dept_attritionRate a) (dept_attritionRate b) = false
  /\ (ltb Ar (dept_attritionRate b) (dept_attritionRate a) = false ->
      listed_before (object_key_order (first_occurrences (labels D)))
                    (department a) (department b)).

(** The neighbour entries when every distance is 0. *)
Definition zero_entries (D : list DatasetRow) : list (SimilarEmployee Ar) :=
  mapi (fun row rowIndex => {| se_index := rowIndex;
                               distance := zero Ar;
                               se_row := row |}) D.

(** The coerced values of one column, record by record. *)
Definition column_values (D : list DatasetRow) (column : string)
  : list (num Ar) :=
  map (fun row => of_double Ar (toNumber (get row column))) D.

(** Mean, population variance (the sum of squared deviations divided by the
    number of values) and the standard deviation with its fallback. *)
Definition mean_of (vs : list (num Ar)) : num Ar :=
  div Ar (fold_left (add Ar) vs (zero Ar)) (of_nat Ar (List.length vs)).

Definition population_variance (vs : list (num Ar)) : num Ar :=
  div Ar
    (fold_left (fun acc v => add Ar acc (square Ar (sub Ar v (mean_of vs))))
               vs (zero Ar))
    (of_nat Ar (List.length vs)).

Definition effective_std (vs : list (num Ar)) : num Ar :=
  let std := sqrt Ar (population_variance vs) in
  if ltb Ar (zero Ar) std then std else of_nat Ar 1.

Section Order.
Context {X : Type}.
Variable comparefn : X -> X -> num Ar.
Variable T : X -> X -> Prop.

(** [comparefn] ranks [x] strictly before [y]. *)
Definition before (x y : X) : Prop :=
  ltb Ar (comparefn x y) (zero Ar) = true.

(** [ranked x y]: [y] may follow [x] in a sorted array whose ties keep the
    order [T] of the input. *)
Definition ranked (x y : X) : Prop :=
  ~ before y x /\ (before x y \/ T x y).

End Order.

End Vocabulary.

Arguments sum_squares {Ar}.
Arguments entry_of {Ar}.
Arguments by_distance {Ar}.
Arguments comparator_consistent {Ar}.
Arguments comparator_consistentb {Ar}.
Arguments index_lt {Ar}.
Arguments summary_of {Ar}.
Arguments by_rate_desc {Ar}.
Arguments ranked_by_rate {Ar}.
Arguments zero_entries {Ar}.
Arguments column_values {Ar}.
Arguments mean_of {Ar}.
Arguments population_variance {Ar}.
Arguments effective_std {Ar}.

(** ** Vocabulary of the further properties *)

(** What is left after stripping starts with no white space. *)
Definition starts_clean (back : bool) (l : list ascii) : Prop :=
  match l with
  | [] => True
  | a :: r1 =>
      JS.ws1 a = false
      /\ match r1 with
         | [] => True
         | b :: r2 =>
             (if back then JS.ws2 b a else JS.ws2 a b) = false
             /\ match r2 with
                | [] => True
                | c :: _ => (if back then JS.ws3 c b a else JS.ws3 a b c) = false
                end
         end
  end.

(** The records that get an entry in [departmentStats]. *)
Definition grouped (D : list DatasetRow) : list DatasetRow :=
  filter (fun row => negb (JS.inherited (department_of row))) D.

(** The records counted, and the attritions counted, over all entries. *)
Definition sum_count (o : JS.object DeptStats) : nat :=
  list_sum (map (fun e => stat_count (snd e)) o).

Definition sum_attr (o : JS.object DeptStats) : nat :=
  list_sum (map (fun e => stat_attr (snd e)) o).

(** The entries of one column of the normalized matrix, record by
    record. *)
Definition normalized_column (Ar : Arith) (D : list DatasetRow) (j : nat)
  : list (num Ar) :=
  map (fun v => cell Ar v j) (normalizedMatrix Ar D).

(** *** The strategy route *)

(** What the service throws for a model ([OtherValue false] stands in when
    it throws nothing). *)
Definition failure (generate : string -> string + Generate.thrown)
  (modelName : string) : Generate.thrown :=
  match generate modelName with
  | inr error => error
  | inl _ => Generate.OtherValue false
  end.

(** The entry of [attempts] a failed model leaves. *)
Definition attempt_of (generate : string -> string + Generate.thrown)
  (modelName : string) : Generate.Attempt :=
  {| Generate.model := modelName;
     Generate.message :=
       Generate.normalizeErrorMessage (failure generate modelName) |}.

(** The service fails for the model with an error that
    [isModelNotFound] recognises. *)
Definition not_found (generate : string -> string + Generate.thrown)
  (modelName : string) : Prop :=
  exists error,
    generate modelName = inr error
    /\ Generate.isModelNotFound error = true.

(** *** The page *)

(** The order of the entries of the list of employees. *)
Definition before_option (a b : Page.EmployeeOption) : Prop :=
  Page.index a < Page.index b.

(** The selection, when there is one, is a position of the dataset. *)
Definition selection_in_range (s : Page.State) : Prop :=
  forall i, Page.selectedIndex s = Some i ->
            i < List.length (Page.csvData s).

(** [n] hundredths written with two decimals: "0.07", "33.33", "100.00". *)
Definition two_decimals (n : Z) : string :=
  let m := JS.digits n in
  let m := (JS.zeros (3 - Z.of_nat (List.length m)) ++ m)%list in
  let k := List.length m in
  string_of_list_ascii (firstn (k - 2) m ++ "."%char :: skipn (k - 2) m)%list.

(** Reading the text of [n] hundredths and writing it with two decimals
    gives the same text. *)
Definition text_kept (n : Z) : bool :=
  String.eqb (JS.toFixed2 (JS.Number (two_decimals n))) (two_decimals n).

(** The [k] integers from [start] on. *)
Fixpoint range (k : nat) (start : Z) : list Z :=
  match k with
  | O => []
  | S k' => start :: range k' (start + 1)%Z
  end.

(** ** Datasets used in the examples *)

(** Scenario A of the specification. *)
Definition scenarioA : list DatasetRow :=
  [ [("Department", VStr "Sales"); ("Attrition", VStr "Yes");
     ("Age", VNum 30%float)];
    [("Department", VStr "Sales"); ("Attrition", VStr "No");
     ("Age", VNum 40%float)];
    [("Department", VStr "R&D"); ("Attrition", VStr "No");
     ("Age", VNum 35%float)] ].

(** The request for the first record of Scenario A. *)
Definition requestA : AnalyzePayload :=
  {| dataset := Some scenarioA; index := Some 0%Z |}.

(** Two departments whose labels are numerals, the larger one first. *)
Definition numbered_departments : list DatasetRow :=
  [ [("Department", VStr "2")]; [("Department", VStr "1")] ].

(** A dataset without any numeric value. *)
Definition text_only : list DatasetRow :=
  [ [("Department", VStr "Sales"); ("Name", VStr "abc")];
    [("Department", VStr "R&D"); ("Name", VStr "def")];
    [("Department", VStr "Sales"); ("Name", VStr "12abc")] ].

(** Three records with the same value 0.1. *)
Definition constant_tenths : list DatasetRow :=
  [ [("x", VNum 0x1.999999999999ap-4%float)];
    [("x", VNum 0x1.999999999999ap-4%float)];
    [("x", VNum 0x1.999999999999ap-4%float)] ].

(** Six departments, one record each. *)
Definition six_departments : list DatasetRow :=
  [ [("Department", VStr "A"); ("Age", VNum 0x1.4p+4%float)];
    [("Department", VStr "B"); ("Age", VNum 0x1.9p+4%float)];
    [("Department", VStr "C"); ("Age", VNum 0x1.ep+4%float)];
    [("Department", VStr "D"); ("Age", VNum 0x1.4p+4%float)];
    [("Department", VStr "E"); ("Age", VNum 0x1.4p+5%float)];
    [("Department", VStr "F"); ("Attrition", VStr "Yes");
     ("Age", VNum 0x1.9p+5%float)] ].

(** The strategy route: services, a request and an environment. *)

(** A service that knows a single model. *)
Definition only_model (known : string) : Generate.Service :=
  fun _ modelName _ =>
    if String.eqb modelName known then inl "1. Offer a mentor."
    else inr (Generate.ErrorObject
                ("[404 Not Found] models/" ++ modelName ++ " is not found")).

(** A service whose quota is used up. *)
Definition no_quota : Generate.Service :=
  fun _ _ _ => inr (Generate.ErrorObject "[429 Too Many Requests] quota").

Definition requestG : Generate.GeneratePayload :=
  {| Generate.employee := Some [("Age", VStr "35")];
     Generate.analysis :=
       Some {| Generate.summary := None;
               Generate.analysis_employee := None;
               Generate.similar := None |} |}.

Definition envG : Generate.Env :=
  {| Generate.GOOGLE_API_KEY := Some "key";
     Generate.GEMINI_MODEL := Some " gemini-1.5-pro " |}.

(* ================================================================== *)
(** * Properties                                                       *)
(* ================================================================== *)

(** ** The two helpers *)

Lemma isNumericLike_spec (v : value) :
  isNumericLike v = true <->
  (exists x, v = VNum x /\ JS.isFinite x = true) \/
  (exists s, v = VStr s /\ JS.trim s <> ""
             /\ JS.isNaN (JS.Number (JS.trim s)) = false).
Proof.
  split.
  - destruct v as [| |b|x|s]; simpl; try discriminate.
    + intros H. left. now exists x.
    + destruct (String.eqb_spec (JS.trim s) "") as [E|E]; [discriminate|].
      intros H. right. exists s. repeat split; trivial.
      now apply negb_true_iff.
  - intros [[x [-> H]]|[s [-> [H1 H2]]]]; simpl; trivial.
    destruct (String.eqb_spec (JS.trim s) "") as [E|E]; [contradiction|].
    now rewrite H2.
Qed.

(** C4: the string branch of [isNumericLike] only rejects NaN, so the text
    "Infinity", which does not parse to a finite number, is accepted; the
    number branch of the same function rejects the number Infinity, and
    [toNumber] coerces the same text to 0. *)
Theorem isNumericLike_accepts_Infinity_text :
  isNumericLike (VStr "Infinity") = true
  /\ JS.isFinite (JS.Number (JS.trim "Infinity")) = false
  /\ isNumericLike (VNum infinity) = false
  /\ toNumber (VStr "Infinity") = PrimFloat.zero
  /\ numericCols ieee [[("x", VStr "Infinity")]] = ["x"].
Proof. vm_compute. repeat split; reflexivity. Qed.

Lemma isFinite_zero : JS.isFinite PrimFloat.zero = true.
Proof. reflexivity. Qed.

(** What [toNumber] returns is always a finite double. *)
Lemma toNumber_finite (v : value) : JS.isFinite (toNumber v) = true.
Proof.
  destruct v as [| |b|x|s]; simpl; try apply isFinite_zero.
  - destruct (JS.isFinite x) eqn:E; [exact E | apply isFinite_zero].
  - destruct (JS.isFinite (JS.Number s)) eqn:E; [exact E | apply isFinite_zero].
Qed.

(** C6, as stated, fails on the number Infinity (which [JSON.parse] yields
    for a numeral such as 1e999): it is a native number, and [toNumber]
    does not return it as it is. *)
Lemma toNumber_Infinity_not_as_is :
  toNumber (VNum infinity) = PrimFloat.zero
  /\ toNumber (VNum infinity) <> infinity.
Proof.
  split; [reflexivity|].
  intros H. apply (f_equal JS.isFinite) in H.
  vm_compute in H. discriminate.
Qed.

(** C6, amended: [toNumber] returns a native number as it is when it is
    finite, the parsed number when a string parses to a finite number, and
    0 in every other case (a non-finite number, a string that does not
    parse or parses to an infinity, null, undefined, a boolean). *)
Theorem toNumber_spec (v : value) :
  (forall x, v = VNum x -> JS.isFinite x = true -> toNumber v = x)
  /\ (forall x, v = VNum x -> JS.isFinite x = false ->
      toNumber v = PrimFloat.zero)
  /\ (forall s, v = VStr s -> JS.isFinite (JS.Number s) = true ->
      toNumber v = JS.Number s)
  /\ (forall s, v = VStr s -> JS.isFinite (JS.Number s) = false ->
      toNumber v = PrimFloat.zero)
  /\ ((forall x, v <> VNum x) -> (forall s, v <> VStr s) ->
      toNumber v = PrimFloat.zero)
  /\ JS.isFinite (toNumber v) = true.
Proof.
  repeat split.
  - intros x -> H. simpl. now rewrite H.
  - intros x -> H. simpl. now rewrite H.
  - intros s -> H. simpl. now rewrite H.
  - intros s -> H. simpl. now rewrite H.
  - intros Hn Hs. destruct v as [| |b|x|s]; try reflexivity.
    + now elim (Hn x).
    + now elim (Hs s).
  - apply toNumber_finite.
Qed.

(** ** Arrays *)

Lemma mapi_from_length {X Y : Type} (f : X -> nat -> Y) (l : list X) :
  forall s, List.length (mapi_from s f l) = List.length l.
Proof. induction l as [|x l IH]; intros s; simpl; [reflexivity | now rewrite IH]. Qed.

Lemma mapi_length {X Y : Type} (f : X -> nat -> Y) (l : list X) :
  List.length (mapi f l) = List.length l.
Proof. apply mapi_from_length. Qed.

Lemma mapi_from_nth_error {X Y : Type} (f : X -> nat -> Y) (l : list X) :
  forall s k,
    nth_error (mapi_from s f l) k
    = option_map (fun x => f x (s + k)) (nth_error l k).
Proof.
  induction l as [|x l IH]; intros s [|k]; simpl; trivial.
  - now rewrite Nat.add_0_r.
  - rewrite IH. now rewrite Nat.add_succ_r.
Qed.

Lemma mapi_nth_error {X Y : Type} (f : X -> nat -> Y) (l : list X) (k : nat) :
  nth_error (mapi f l) k = option_map (fun x => f x k) (nth_error l k).
Proof. unfold mapi. now rewrite mapi_from_nth_error. Qed.

Lemma mapi_from_ext {X Y : Type} (f g : X -> nat -> Y) (l : list X) :
  forall s,
    (forall k x, nth_error l k = Some x -> f x (s + k) = g x (s + k)) ->
    mapi_from s f l = mapi_from s g l.
Proof.
  induction l as [|x l IH]; intros s H; simpl; trivial.
  f_equal.
  - specialize (H 0 x eq_refl). now rewrite Nat.add_0_r in H.
  - apply IH. intros k y Hk. specialize (H (S k) y Hk).
    now rewrite Nat.add_succ_r in H.
Qed.

Lemma mapi_from_seq {X Y : Type} (f : X -> nat -> Y) (l : list X) :
  forall s,
    mapi_from s f l
    = map (fun p => f (snd p) (fst p)) (combine (seq s (List.length l)) l).
Proof. induction l as [|x l IH]; intros s; simpl; [|rewrite IH]; reflexivity. Qed.

Lemma sequence_Some {X : Type} (l : list X) :
  sequence (map Some l) = Some l.
Proof. induction l as [|x l IH]; simpl; [|rewrite IH]; reflexivity. Qed.

Lemma fold_left_count {X : Type} (p : X -> bool) (l : list X) :
  forall n,
    fold_left (fun acc x => if p x then S acc else acc) l n
    = n + List.length (filter p l).
Proof.
  induction l as [|x l IH]; intros n; simpl; [lia|].
  rewrite IH. destruct (p x); simpl; lia.
Qed.

(** ** Shape of the intermediate matrices *)

Section Shape.
Variable Ar : Arith.

Lemma numericMatrix_length D :
  List.length (numericMatrix Ar D) = List.length D.
Proof. unfold numericMatrix. apply length_map. Qed.

Lemma normalizedMatrix_length D :
  List.length (normalizedMatrix Ar D) = List.length D.
Proof. unfold normalizedMatrix. rewrite length_map. apply numericMatrix_length. Qed.

Lemma means_length D :
  List.length (means Ar D) = List.length (numericCols Ar D).
Proof. unfold means. apply mapi_length. Qed.

Lemma stdDevs_length D :
  List.length (stdDevs Ar D) = List.length (numericCols Ar D).
Proof. unfold stdDevs. apply mapi_length. Qed.

Lemma numericMatrix_row D r row :
  nth_error D r = Some row ->
  nth_error (numericMatrix Ar D) r
  = Some (map (fun column => of_double Ar (toNumber (get row column)))
              (numericCols Ar D)).
Proof. intros H. unfold numericMatrix. now rewrite nth_error_map, H. Qed.

Lemma normalizedMatrix_row D r row :
  nth_error D r = Some row ->
  exists v, nth_error (normalizedMatrix Ar D) r = Some v
            /\ List.length v = List.length (numericCols Ar D).
Proof.
  intros H. unfold normalizedMatrix.
  rewrite nth_error_map, (numericMatrix_row _ _ _ H). simpl.
  eexists. split; [reflexivity|].
  now rewrite mapi_length, length_map.
Qed.

Lemma distance_to_Some target numericRow :
  distance_to Ar (Some target) numericRow
  = Some (sqrt Ar (sum_squares numericRow target)).
Proof.
  unfold distance_to, sum_squares, reducei.
  enough (H : forall i acc,
             reducei_from i
               (fun acc value columnIndex =>
                  match acc with
                  | Some acc =>
                      Some (add Ar acc
                              (mul Ar (sub Ar value (cell Ar target columnIndex))
                                   (sub Ar value (cell Ar target columnIndex))))
                  | None => None
                  end) numericRow (Some acc)
             = Some (reducei_from i
                       (fun acc value columnIndex =>
                          add Ar acc
                            (mul Ar (sub Ar value (cell Ar target columnIndex))
                                 (sub Ar value (cell Ar target columnIndex))))
                       numericRow acc)).
  { simpl. now rewrite H. }
  induction numericRow as [|x l IH]; intros i acc; simpl; [reflexivity|].
  apply IH.
Qed.

Lemma distances_Some D i target :
  nth_error (normalizedMatrix Ar D) i = Some target ->
  distances Ar D i
  = Some (sort Ar by_distance (mapi (entry_of D target) (normalizedMatrix Ar D))).
Proof.
  intros H. unfold distances. rewrite H.
  replace (mapi _ (normalizedMatrix Ar D))
    with (map Some (mapi (entry_of D target) (normalizedMatrix Ar D))).
  - now rewrite sequence_Some.
  - unfold mapi. generalize 0. generalize (normalizedMatrix Ar D).
    induction l as [|x l IH]; intros s; simpl; [reflexivity|].
    rewrite IH, distance_to_Some. reflexivity.
Qed.

Lemma target_defined D i :
  i < List.length D ->
  exists target, nth_error (normalizedMatrix Ar D) i = Some target.
Proof.
  intros H. destruct (nth_error D i) as [row|] eqn:E.
  - destruct (normalizedMatrix_row _ _ _ E) as [v [Hv _]]. now exists v.
  - apply nth_error_None in E. lia.
Qed.

(** On a valid index the computation does not raise. *)
Lemma analyze_Some D i :
  i < List.length D ->
  exists target,
    nth_error (normalizedMatrix Ar D) i = Some target
    /\ analyze Ar D i
       = Some {| summary_total := total D;
                 summary_attritionRate := attritionRate Ar D;
                 summary_topDepartments := topDepartments Ar D;
                 summary_numericCols := numericCols Ar D;
                 resp_employee := nth i D [];
                 resp_similar :=
                   firstn 10
                     (filter (fun entry => negb (se_index entry =? i))
                        (sort Ar by_distance
                           (mapi (entry_of D target)
                                 (normalizedMatrix Ar D)))) |}.
Proof.
  intros H. destruct (target_defined D i H) as [target Ht].
  exists target. split; [exact Ht|].
  unfold analyze, similar. now rewrite (distances_Some _ _ _ Ht).
Qed.

End Shape.

(** ** Validation (lines 61-73) *)

(** On a non-empty dataset and an index in range the handler answers with
    the analysis. *)
Lemma POST_in_range (Ar : Arith) (D : list DatasetRow) (i : Z) :
  (0 <= i < Z.of_nat (List.length D))%Z ->
  exists target,
    nth_error (normalizedMatrix Ar D) (Z.to_nat i) = Some target
    /\ POST Ar {| dataset := Some D; index := Some i |}
       = Status200
           {| summary_total := List.length D;
              summary_attritionRate := attritionRate Ar D;
              summary_topDepartments := topDepartments Ar D;
              summary_numericCols := numericCols Ar D;
              resp_employee := nth (Z.to_nat i) D [];
              resp_similar :=
                firstn 10
                  (filter (fun entry => negb (se_index entry =? Z.to_nat i))
                     (sort Ar by_distance
                        (mapi (entry_of D target)
                              (normalizedMatrix Ar D)))) |}.
Proof.
  intros Hi. unfold POST. cbn [dataset index].
  destruct (Nat.eqb_spec (List.length D) 0) as [E0|E0]; [lia|].
  destruct (i <? 0)%Z eqn:E1; [apply Z.ltb_lt in E1; lia|].
  destruct (Z.of_nat (List.length D) <=? i)%Z eqn:E2;
    [apply Z.leb_le in E2; lia|].
  cbn [orb].
  assert (Hn : Z.to_nat i < List.length D) by lia.
  destruct (analyze_Some Ar D (Z.to_nat i) Hn) as [target [Ht Ha]].
  rewrite Ha. exists target. split; [exact Ht | reflexivity].
Qed.



(** A body that lacks the dataset or the index is refused by the first
    guard. *)
Lemma POST_missing_field (Ar : Arith) (body : AnalyzePayload) :
  dataset body = None \/ index body = None ->
  POST Ar body
  = Status400 "Payload must include dataset[] and numeric index.".
Proof.
  unfold POST. intros [H|H]; rewrite H; [reflexivity|].
  now destruct (dataset body).
Qed.

(** Scenario D: the index equal to the length is rejected. *)
Example scenario_D :
  POST ieee {| dataset := Some scenarioA; index := Some 3%Z |}
  = Status400 "Selected employee index is out of bounds.".
Proof. reflexivity. Qed.

(** ** The column classifier (lines 102-107) *)

Lemma numericCount_eq D column :
  numericCount D column = numeric_like_count D column.
Proof. unfold numericCount. now rewrite fold_left_count. Qed.

Lemma excludedb_spec column : excludedb column = true <-> excluded column.
Proof.
  unfold excludedb, excluded. rewrite existsb_exists. split.
  - intros [x [Hx E]]. apply String.eqb_eq in E. now subst.
  - intros H. exists (JS.toLowerCase column). split; [exact H|].
    apply String.eqb_refl.
Qed.

Lemma numericCols_filter Ar D :
  numericCols Ar D = filter (qualifies Ar D) (candidateColumns D).
Proof.
  unfold numericCols. apply filter_ext. intros c.
  unfold qualifies, clears_threshold, excludedb, total.
  rewrite numericCount_eq.
  now destruct (existsb _ IGNORE_NUMERIC_COLUMNS).
Qed.

(** C3: the numeric columns are the keys of the first record whose
    lower-cased name is not in the exclusion set and whose ratio of
    numeric-like values reaches 0.7; they keep the key order of the first
    record and none is repeated. *)
Theorem numericCols_spec (Ar : Arith) (D : list DatasetRow) :
  D <> [] ->
  NoDup (map fst (hd [] D)) ->
  (forall c,
      In c (numericCols Ar D)
      <-> In c (map fst (hd [] D)) /\ ~ excluded c
          /\ clears_threshold Ar D c = true)
  /\ NoDup (numericCols Ar D)
  /\ numericCols Ar D = filter (qualifies Ar D) (map fst (hd [] D)).
Proof.
  intros _ Hnd. rewrite numericCols_filter. unfold candidateColumns.
  split; [|split].
  - intros c. rewrite filter_In. unfold qualifies.
    rewrite andb_true_iff, negb_true_iff, <- excludedb_spec.
    destruct (excludedb c); intuition congruence.
  - now apply NoDup_filter.
  - reflexivity.
Qed.

Lemma numericCols_spec_witness :
  (forall c,
      In c (numericCols ieee scenarioA)
      <-> In c (map fst (hd [] scenarioA)) /\ ~ excluded c
          /\ clears_threshold ieee scenarioA c = true)
  /\ NoDup (numericCols ieee scenarioA)
  /\ numericCols ieee scenarioA
     = filter (qualifies ieee scenarioA) (map fst (hd [] scenarioA)).
Proof.
  apply (numericCols_spec ieee scenarioA).
  - discriminate.
  - simpl. repeat constructor; simpl; intuition discriminate.
Defined.

(** ** [Array.prototype.sort]

    ECMAScript fixes the result of [sort] when [comparefn] is a consistent
    comparator for the elements.  Below, [before x y] says that [comparefn]
    ranks [x] strictly before [y], and consistency is asked of the elements
    that satisfy [P] only. *)

Section SortFacts.
Variable Ar : Arith.
Context {X : Type}.
Variable comparefn : X -> X -> num Ar.
Variable P : X -> Prop.
Variable T : X -> X -> Prop.

Local Abbreviation before := (before Ar comparefn).
Local Abbreviation ranked := (ranked Ar comparefn T).

Hypothesis before_asym :
  forall x y, P x -> P y -> before x y -> ~ before y x.
Hypothesis before_negtrans :
  forall x y z, P x -> P y -> P z -> before x z -> before x y \/ before y z.

Lemma sort_insert_In x l z :
  In z (sort_insert Ar comparefn x l) <-> z = x \/ In z l.
Proof.
  induction l as [|y r IH]; simpl.
  - intuition.
  - destruct (ltb Ar (comparefn x y) (zero Ar)); simpl; [intuition|].
    rewrite IH. intuition.
Qed.

Lemma sort_insert_perm x l :
  Permutation (x :: l) (sort_insert Ar comparefn x l).
Proof.
  induction l as [|y r IH]; simpl; [apply Permutation_refl|].
  destruct (ltb Ar (comparefn x y) (zero Ar)); [apply Permutation_refl|].
  eapply perm_trans; [apply perm_swap|]. now apply perm_skip.
Qed.

Lemma sort_insert_ranked x l :
  P x -> Forall P l ->
  (forall a, In a l -> T a x) ->
  StronglySorted ranked l ->
  StronglySorted ranked (sort_insert Ar comparefn x l).
Proof.
  intros Px. induction l as [|y r IH]; intros HP HT HS; simpl.
  - repeat constructor.
  - inversion HP as [|? ? Py Pr]; subst.
    apply StronglySorted_inv in HS. destruct HS as [HSr Hy].
    destruct (ltb Ar (comparefn x y) (zero Ar)) eqn:E.
    + constructor; [now constructor|].
      assert (Hxy : before x y) by exact E.
      constructor.
      * split; [now apply before_asym | now left].
      * rewrite Forall_forall in *. intros z Hz.
        destruct (Hy z Hz) as [Hzy _].
        destruct (before_negtrans x z y Px (Pr z Hz) Py Hxy) as [H|H];
          [|contradiction].
        split; [apply before_asym; auto | now left].
    + constructor.
      * apply IH; trivial. intros a Ha. apply HT. now right.
      * rewrite Forall_forall in *. intros z Hz.
        apply sort_insert_In in Hz. destruct Hz as [->|Hz]; [|now apply Hy].
        split.
        -- unfold before. now rewrite E.
        -- right. apply HT. now left.
Qed.

Lemma sort_fold_ranked l :
  forall acc,
    Forall P acc -> Forall P l ->
    StronglySorted ranked acc ->
    (forall a r, In a acc -> In r l -> T a r) ->
    StronglySorted T l ->
    StronglySorted ranked
      (fold_left (fun acc x => sort_insert Ar comparefn x acc) l acc).
Proof.
  induction l as [|x l IH]; intros acc Pacc Pl Hacc HT HTl; simpl; trivial.
  inversion Pl as [|? ? Px Pl']; subst.
  apply StronglySorted_inv in HTl. destruct HTl as [HTl Hx].
  apply IH; trivial.
  - rewrite Forall_forall in *. intros z Hz.
    apply sort_insert_In in Hz. destruct Hz as [->|Hz]; auto.
  - apply sort_insert_ranked; trivial.
    intros a Ha. apply HT; [exact Ha | now left].
  - intros a r Ha Hr. apply sort_insert_In in Ha. destruct Ha as [->|Ha].
    + rewrite Forall_forall in Hx. now apply Hx.
    + apply HT; [exact Ha | now right].
Qed.

(** A consistent comparator sorts, and ties keep the order of the input. *)
Lemma sort_ranked l :
  Forall P l -> StronglySorted T l ->
  StronglySorted ranked (sort Ar comparefn l).
Proof.
  intros HP HT. unfold sort. apply sort_fold_ranked; trivial.
  - constructor.
  - intros a r [].
Qed.

Lemma sort_fold_perm l :
  forall acc,
    Permutation (acc ++ l)
      (fold_left (fun acc x => sort_insert Ar comparefn x acc) l acc).
Proof.
  induction l as [|x l IH]; intros acc; simpl.
  - rewrite app_nil_r. apply Permutation_refl.
  - eapply perm_trans; [|apply IH].
    eapply perm_trans; [apply Permutation_sym, Permutation_middle|].
    change (x :: acc ++ l) with ((x :: acc) ++ l).
    apply Permutation_app_tail. apply sort_insert_perm.
Qed.

Lemma sort_perm l : Permutation l (sort Ar comparefn l).
Proof. unfold sort. apply (sort_fold_perm l []). Qed.

End SortFacts.

(** Sortedness survives [filter] and [slice(0, n)]. *)
Lemma StronglySorted_filter' {X : Type} (R : X -> X -> Prop) (f : X -> bool)
  (l : list X) :
  StronglySorted R l -> StronglySorted R (filter f l).
Proof.
  induction 1 as [|x l HS IH Hx]; simpl; [constructor|].
  destruct (f x); trivial. constructor; trivial.
  rewrite Forall_forall in *. intros z Hz. apply filter_In in Hz.
  now apply Hx.
Qed.

Lemma StronglySorted_impl_In {X : Type} (R R' : X -> X -> Prop) (l : list X) :
  (forall a b, In a l -> In b l -> R a b -> R' a b) ->
  StronglySorted R l -> StronglySorted R' l.
Proof.
  intros H HS. induction HS as [|x l HS IH Hx]; constructor.
  - apply IH. intros a b Ha Hb. apply H; now right.
  - rewrite Forall_forall in *. intros z Hz.
    apply H; [now left | now right | now apply Hx].
Qed.

Lemma firstn_In {X : Type} (n : nat) (l : list X) (x : X) :
  In x (firstn n l) -> In x l.
Proof.
  revert n. induction l as [|y l IH]; intros [|n]; simpl; try tauto.
  intros [H|H]; [now left | right; eauto].
Qed.

Lemma StronglySorted_firstn {X : Type} (R : X -> X -> Prop) (n : nat)
  (l : list X) :
  StronglySorted R l -> StronglySorted R (firstn n l).
Proof.
  intros H. revert n. induction H as [|x l HS IH Hx]; intros [|n]; simpl;
    try constructor.
  - apply IH.
  - rewrite Forall_forall in *. intros z Hz. apply Hx.
    eapply firstn_In; eauto.
Qed.

(** ** Comparators that subtract two numbers

    Both sorts of the handler compare by the sign of a difference.  The sign
    tells the order of the two numbers, and that order is a strict weak
    order, on every list of doubles without NaN and on every list of real
    numbers.  [comparator_consistent ds] states it for the numbers of
    [ds]; [comparator_consistentb] checks it by enumeration. *)

Section Comparator.
Variable Ar : Arith.

Lemma comparator_consistentb_sound (ds : list (num Ar)) :
  comparator_consistentb ds = true -> comparator_consistent ds.
Proof.
  unfold comparator_consistentb. rewrite forallb_forall. intros H.
  assert (H' : forall a b, In a ds -> In b ds ->
             Bool.eqb (ltb Ar (sub Ar a b) (zero Ar)) (ltb Ar a b) = true
             /\ (negb (ltb Ar a b) || negb (ltb Ar b a)) = true
             /\ forall c, In c ds ->
                  (negb (ltb Ar a c) || ltb Ar a b || ltb Ar b c) = true).
  { intros a b Ha Hb. specialize (H a Ha). rewrite forallb_forall in H.
    specialize (H b Hb). rewrite !andb_true_iff, forallb_forall in H.
    tauto. }
  split.
  - intros a b Ha Hb. destruct (H' a b Ha Hb) as [E _].
    now apply Bool.eqb_prop in E.
  - intros a b Ha Hb Hab. destruct (H' a b Ha Hb) as [_ [E _]].
    rewrite Hab in E. simpl in E. now apply negb_true_iff in E.
  - intros a b c Ha Hb Hc Hac. destruct (H' a b Ha Hb) as [_ [_ E]].
    specialize (E c Hc). rewrite Hac in E. simpl in E.
    apply orb_true_iff in E. tauto.
Qed.

Lemma comparator_consistent_incl (ds ds' : list (num Ar)) :
  incl ds' ds -> comparator_consistent ds -> comparator_consistent ds'.
Proof.
  intros Hi [H1 H2 H3]. split; intros; auto.
Qed.

End Comparator.

Lemma Rltb_true a b : Rltb a b = true <-> (a < b)%R.
Proof. unfold Rltb. destruct (Rlt_dec a b); intuition discriminate. Qed.

Lemma Rltb_false a b : Rltb a b = false <-> (b <= a)%R.
Proof.
  unfold Rltb. destruct (Rlt_dec a b); split; intros; try discriminate;
    try reflexivity; lra.
Qed.

Lemma Rleb_true a b : Rleb a b = true <-> (a <= b)%R.
Proof. unfold Rleb. destruct (Rle_dec a b); intuition discriminate. Qed.

(** In exact arithmetic every comparator of this kind is consistent. *)
Lemma exact_consistent (ds : list R) : @comparator_consistent exact ds.
Proof.
  split; simpl.
  - intros a b _ _. destruct (Rlt_dec a b) as [H|H].
    + transitivity true; [|symmetry]; apply Rltb_true; lra.
    + transitivity false; [|symmetry]; apply Rltb_false; lra.
  - intros a b _ _ H. apply Rltb_true in H. apply Rltb_false. lra.
  - intros a b c _ _ _ H. apply Rltb_true in H.
    destruct (Rlt_dec a b) as [Hab|Hab].
    + left. now apply Rltb_true.
    + right. apply Rltb_true. lra.
Qed.

(** ** Nearest neighbours (lines 131-145) *)

Section Ranking.
Variable Ar : Arith.

Local Abbreviation euclidean := (euclidean Ar).
Local Abbreviation distance_list := (distance_list Ar).
Local Abbreviation nearer := (nearer Ar).

Lemma reducei_from_combine (t : list (num Ar)) (u : list (num Ar)) :
  forall (t' : list (num Ar)) i acc,
    List.length u = List.length t' ->
    (forall k, k < List.length u -> cell Ar t (i + k) = nth k t' (zero Ar)) ->
    reducei_from i
      (fun acc value columnIndex =>
         add Ar acc (mul Ar (sub Ar value (cell Ar t columnIndex))
                            (sub Ar value (cell Ar t columnIndex))))
      u acc
    = fold_left (fun acc p =>
                   add Ar acc (mul Ar (sub Ar (fst p) (snd p))
                                      (sub Ar (fst p) (snd p))))
                (combine u t') acc.
Proof.
  induction u as [|x u IH]; intros t' i acc HL H; simpl; [reflexivity|].
  destruct t' as [|b t'']; [discriminate|]. simpl.
  assert (H0 := H 0 (Nat.lt_0_succ _)). rewrite Nat.add_0_r in H0.
  simpl in H0. rewrite H0. apply IH.
  - simpl in HL. lia.
  - intros k Hk. specialize (H (S k)). rewrite Nat.add_succ_r in H.
    simpl in H. apply H. lia.
Qed.

Lemma sum_squares_euclidean (u t : list (num Ar)) :
  List.length u = List.length t ->
  sqrt Ar (sum_squares u t) = euclidean u t.
Proof.
  intros H. unfold euclidean, sum_squares, reducei. f_equal.
  apply reducei_from_combine; trivial.
Qed.

Lemma entries_In D (t : list (num Ar)) l :
  forall s e,
    In e (mapi_from s (entry_of D t) l) ->
    exists k v, nth_error l k = Some v /\ e = entry_of D t v (s + k).
Proof.
  induction l as [|x l IH]; intros s e; simpl; [tauto|].
  intros [<-|H].
  - exists 0, x. now rewrite Nat.add_0_r.
  - destruct (IH _ _ H) as [k [v [Hk ->]]].
    exists (S k), v. now rewrite Nat.add_succ_r.
Qed.

Lemma entries_index_sorted D (t : list (num Ar)) l :
  forall s, StronglySorted index_lt (mapi_from s (entry_of D t) l).
Proof.
  induction l as [|x l IH]; intros s; simpl; constructor; [apply IH|].
  rewrite Forall_forall. intros e He.
  destruct (entries_In _ _ _ _ _ He) as [k [v [_ ->]]].
  unfold index_lt. simpl. lia.
Qed.

Lemma entries_target_outside D (t : list (num Ar)) i l :
  forall s,
    i < s \/ s + List.length l <= i ->
    List.length (filter (fun e => negb (se_index e =? i))
                        (mapi_from s (entry_of D t) l))
    = List.length l.
Proof.
  induction l as [|x l IH]; intros s H; simpl; [reflexivity|].
  simpl in H. destruct (Nat.eqb_spec s i) as [E|E]; [lia|]. simpl.
  f_equal. apply IH. lia.
Qed.

Lemma entries_without_target D (t : list (num Ar)) i l :
  forall s,
    s <= i < s + List.length l ->
    S (List.length (filter (fun e => negb (se_index e =? i))
                           (mapi_from s (entry_of D t) l)))
    = List.length l.
Proof.
  induction l as [|x l IH]; intros s H; simpl in *; [lia|].
  destruct (Nat.eqb_spec s i) as [E|E]; simpl.
  - f_equal. apply entries_target_outside. lia.
  - f_equal. apply IH. lia.
Qed.

Lemma sorted_by_distance D i target :
  nth_error (normalizedMatrix Ar D) i = Some target ->
  comparator_consistent (distance_list D i) ->
  StronglySorted nearer
    (sort Ar by_distance (mapi (entry_of D target) (normalizedMatrix Ar D))).
Proof.
  intros Ht [Hs Ha Hn]. unfold distance_list in *. rewrite Ht in *.
  set (ds := map (fun v => sqrt Ar (sum_squares v target))
                 (normalizedMatrix Ar D)) in *.
  set (Pd := fun e : SimilarEmployee Ar => In (distance e) ds).
  assert (HP : Forall Pd (mapi (entry_of D target) (normalizedMatrix Ar D))).
  { rewrite Forall_forall. intros e He.
    destruct (entries_In _ _ _ _ _ He) as [k [v [Hk ->]]].
    unfold Pd, ds. simpl. apply in_map_iff. exists v. split; trivial.
    eapply nth_error_In; eauto. }
  assert (HS := sort_ranked Ar by_distance Pd index_lt).
  eapply StronglySorted_impl_In.
  2:{ apply HS; trivial.
      - intros x y Px Py. unfold before, by_distance.
        rewrite (Hs _ _ Px Py), (Hs _ _ Py Px). intros H1 H2.
        rewrite (Ha _ _ Px Py H1) in H2. discriminate.
      - intros x y z Px Py Pz. unfold before, by_distance.
        rewrite (Hs _ _ Px Pz), (Hs _ _ Px Py), (Hs _ _ Py Pz).
        now apply Hn.
      - apply entries_index_sorted. }
  intros a b Ha' Hb' [H1 H2].
  assert (Pa : Pd a).
  { rewrite Forall_forall in HP. apply HP.
    eapply Permutation_in; [apply Permutation_sym, sort_perm | exact Ha']. }
  assert (Pb : Pd b).
  { rewrite Forall_forall in HP. apply HP.
    eapply Permutation_in; [apply Permutation_sym, sort_perm | exact Hb']. }
  unfold before, by_distance in H1, H2.
  rewrite (Hs _ _ Pb Pa) in H1. rewrite (Hs _ _ Pa Pb) in H2.
  split.
  - now destruct (ltb Ar (distance b) (distance a)).
  - intros E. destruct H2 as [H2|H2]; [congruence | exact H2].
Qed.

End Ranking.

Lemma filter_Permutation {X : Type} (f : X -> bool) (l l' : list X) :
  Permutation l l' -> Permutation (filter f l) (filter f l').
Proof.
  induction 1 as [|x l l' H IH|x y l|l l' l'' H1 IH1 H2 IH2]; simpl.
  - constructor.
  - destruct (f x); [now constructor | exact IH].
  - destruct (f x), (f y); try apply Permutation_refl. apply perm_swap.
  - eapply perm_trans; eauto.
Qed.

Lemma normalizedMatrix_row_length Ar D v :
  In v (normalizedMatrix Ar D) ->
  List.length v = List.length (numericCols Ar D).
Proof.
  unfold normalizedMatrix, numericMatrix. rewrite map_map.
  intros H. apply in_map_iff in H. destruct H as [row [<- _]].
  now rewrite mapi_length, length_map.
Qed.

(** The neighbour list on a valid index, before any assumption on the
    comparator: its length, its members and their distances. *)
Lemma neighbours_structure (Ar : Arith) (D : list DatasetRow) (i : nat)
  (target : list (num Ar)) :
  i < List.length D ->
  nth_error (normalizedMatrix Ar D) i = Some target ->
  forall all,
    all = filter (fun e => negb (se_index e =? i))
                 (sort Ar by_distance
                    (mapi (entry_of D target) (normalizedMatrix Ar D))) ->
    similar Ar D i = Some (firstn 10 all)
    /\ List.length (firstn 10 all) = Nat.min 10 (List.length D - 1)
    /\ Permutation all
         (filter (fun e => negb (se_index e =? i))
                 (mapi (entry_of D target) (normalizedMatrix Ar D)))
    /\ (forall e, In e all ->
          se_index e <> i
          /\ nth_error D (se_index e) = Some (se_row e)
          /\ exists v,
               nth_error (normalizedMatrix Ar D) (se_index e) = Some v
               /\ distance e = euclidean Ar v target).
Proof.
  intros Hi Ht all ->.
  set (NM := normalizedMatrix Ar D) in *.
  set (unsorted := mapi (entry_of D target) NM).
  set (keep := fun e : SimilarEmployee Ar => negb (se_index e =? i)).
  assert (Hperm : Permutation (filter keep (sort Ar by_distance unsorted))
                              (filter keep unsorted)).
  { apply filter_Permutation, Permutation_sym, sort_perm. }
  assert (Hlen : S (List.length (filter keep unsorted)) = List.length D).
  { unfold unsorted, mapi, keep.
    rewrite (entries_without_target Ar D target i NM 0).
    - apply normalizedMatrix_length.
    - unfold NM. rewrite normalizedMatrix_length. lia. }
  split.
  { unfold similar. unfold NM in Ht. now rewrite (distances_Some _ _ _ _ Ht). }
  split.
  { rewrite length_firstn, (Permutation_length Hperm). lia. }
  split; [exact Hperm|].
  intros e He. apply filter_In in He. destruct He as [He Hk].
  unfold keep in Hk. apply negb_true_iff, Nat.eqb_neq in Hk.
  split; [exact Hk|].
  apply (Permutation_in _ (Permutation_sym (sort_perm Ar by_distance unsorted)))
    in He.
  destruct (entries_In _ _ _ _ _ _ He) as [k [v [Hv ->]]]. simpl.
  assert (Hk' : k < List.length D).
  { unfold NM in Hv. rewrite <- (normalizedMatrix_length Ar).
    apply nth_error_Some. congruence. }
  split; [now apply nth_error_nth'|].
  exists v. split; [exact Hv|].
  apply sum_squares_euclidean.
  rewrite (normalizedMatrix_row_length Ar D v),
          (normalizedMatrix_row_length Ar D target); trivial;
    eapply nth_error_In; eauto.
Qed.



(** In exact arithmetic the ranking needs no side condition. *)
Corollary similar_ranking_exact (D : list DatasetRow) (i : nat) :
  i < List.length D ->
  exists target all,
    nth_error (normalizedMatrix exact D) i = Some target
    /\ similar exact D i = Some (firstn 10 all)
    /\ List.length (firstn 10 all) = Nat.min 10 (List.length D - 1)
    /\ StronglySorted (nearer exact) all.
Proof.
  intros Hi.
  destruct (target_defined exact D i Hi) as [target Ht].
  exists target. eexists. split; [exact Ht|].
  destruct (neighbours_structure exact D i target Hi Ht _ eq_refl)
    as [H1 [H2 _]].
  split; [exact H1|]. split; [exact H2|].
  apply StronglySorted_filter'.
  apply (sorted_by_distance exact D i); [exact Ht | apply exact_consistent].
Qed.

(** The ranking of Scenario A, as the runtime computes it. *)
Example scenario_A_neighbours :
  option_map (map (fun e => (se_index e, distance e))) (similar ieee scenarioA 0)
  = Some [(2, 0x1.3988e1409212ep+0%float); (1, 0x1.3988e1409212ep+1%float)].
Proof. vm_compute. reflexivity. Qed.

(** ** The pass over the dataset *)

Section ObjectFacts.
Context {V : Type}.
Implicit Types (o : JS.object V) (k : string) (v : V).

Lemma own_get_set o k v k' :
  JS.own_get (JS.own_set o k v) k'
  = if String.eqb k k' then Some v else JS.own_get o k'.
Proof.
  induction o as [|[k0 v0] o IH]; simpl.
  - reflexivity.
  - destruct (String.eqb_spec k0 k) as [->|Hne]; simpl.
    + now destruct (String.eqb k k').
    + rewrite IH. destruct (String.eqb_spec k0 k') as [->|Hne'];
        [|reflexivity].
      destruct (String.eqb_spec k k'); [congruence | reflexivity].
Qed.

Lemma own_get_None o k :
  JS.own_get o k = None <-> ~ In k (map fst o).
Proof.
  induction o as [|[k0 v0] o IH]; simpl; [tauto|].
  destruct (String.eqb_spec k0 k) as [->|Hne].
  - split; [discriminate | tauto].
  - rewrite IH. tauto.
Qed.

Lemma own_set_keys o k v :
  map fst (JS.own_set o k v)
  = if existsb (String.eqb k) (map fst o) then map fst o
    else map fst o ++ [k].
Proof.
  induction o as [|[k0 v0] o IH]; simpl; [reflexivity|].
  rewrite (String.eqb_sym k k0).
  destruct (String.eqb k0 k); simpl; [reflexivity|].
  rewrite IH. now destruct (existsb (String.eqb k) (map fst o)).
Qed.

Lemma own_get_In o k v :
  NoDup (map fst o) -> (In (k, v) o <-> JS.own_get o k = Some v).
Proof.
  induction o as [|[k0 v0] o IH]; simpl; intros Hnd.
  - split; [tauto | discriminate].
  - inversion Hnd as [|? ? Hk0 Hnd']; subst.
    destruct (String.eqb_spec k0 k) as [->|Hne].
    + split.
      * intros [E|Hin]; [congruence|].
        elim Hk0. apply in_map_iff. now exists (k, v).
      * intros E. left. congruence.
    + rewrite <- (IH Hnd'). split; [|tauto].
      intros [E|Hin]; [congruence | exact Hin].
Qed.

End ObjectFacts.

(** What one iteration does, in one step. *)
Lemma forEach_body_eq (st : nat * JS.object DeptStats) (row : DatasetRow) :
  forEach_body st row
  = (if attrited row then S (fst st) else fst st,
     if JS.inherited (department_of row) then snd st
     else
       let cur := match JS.own_get (snd st) (department_of row) with
                  | Some e => e
                  | None => {| stat_count := 0; stat_attr := 0 |}
                  end in
       JS.own_set (snd st) (department_of row)
         {| stat_count := S (stat_count cur);
            stat_attr := if attrited row then S (stat_attr cur)
                         else stat_attr cur |}).
Proof.
  destruct st as [n o]. unfold forEach_body. simpl fst. simpl snd.
  destruct (JS.inherited (department_of row)); [reflexivity|].
  f_equal. set (d := department_of row).
  assert (Hset2 : forall (o' : JS.object DeptStats) v v',
             JS.own_set (JS.own_set o' d v) d v' = JS.own_set o' d v').
  { intros o' v v'. induction o' as [|[k0 v0] o' IH]; simpl.
    - now rewrite String.eqb_refl.
    - destruct (String.eqb_spec k0 d) as [->|Hne]; simpl.
      + now rewrite String.eqb_refl.
      + destruct (String.eqb_spec k0 d); [contradiction|]. now rewrite IH. }
  destruct (JS.own_get o d) as [e|] eqn:E.
  - rewrite E. cbv zeta. rewrite own_get_set, String.eqb_refl.
    destruct (attrited row); now rewrite ?Hset2.
  - rewrite own_get_set, String.eqb_refl. cbv zeta.
    rewrite own_get_set, String.eqb_refl.
    destruct (attrited row); now rewrite ?Hset2.
Qed.

Lemma forEach_count (D : list DatasetRow) :
  forall st,
    fst (fold_left forEach_body D st)
    = fst st + List.length (filter attrited D).
Proof.
  induction D as [|row D IH]; intros st; simpl; [lia|].
  rewrite IH, forEach_body_eq. simpl fst.
  destruct (attrited row); simpl; lia.
Qed.

(** [attritionCount] is the number of records that count as attrition. *)
Lemma attritionCount_eq (D : list DatasetRow) :
  attritionCount D = List.length (filter attrited D).
Proof. unfold attritionCount, forEach. now rewrite forEach_count. Qed.

Lemma attrited_says_yes (row : DatasetRow) :
  attrited row = says_yes (get row ATTRITION_FIELD).
Proof.
  unfold attrited, says_yes.
  destruct (get row ATTRITION_FIELD) as [| |b|x|s]; simpl;
    try reflexivity; now rewrite orb_false_r, orb_assoc.
Qed.

(** ** Rates *)

Lemma INR_100 : INR 100 = 100%R.
Proof. rewrite INR_IZR_INZ. reflexivity. Qed.

(** In exact arithmetic a rate is a whole number of hundredths between 0
    and 100. *)
Lemma percentage_exact_range (a c : nat) :
  a <= c -> 0 < c ->
  exists n : Z,
    (0 <= n <= 10000)%Z
    /\ percentage exact a c = (IZR n / 100)%R
    /\ (0 <= percentage exact a c <= 100)%R.
Proof.
  intros Hac Hc. unfold percentage.
  cbn [round2 mul div of_nat exact]. rewrite INR_100.
  assert (Ha : (0 <= INR a)%R) by apply pos_INR.
  assert (Hc' : (0 < INR c)%R) by now apply lt_0_INR.
  assert (Hle : (INR a <= INR c)%R) by now apply le_INR.
  set (q := (INR a / INR c)%R).
  assert (Hq : (q * INR c = INR a)%R) by (unfold q; field; lra).
  assert (Hq01 : (0 <= q <= 1)%R) by (split; nra).
  unfold round_hundredths.
  destruct (Rlt_dec (q * 100) 0) as [Hneg|_]; [lra|].
  set (r := (100 * (q * 100) + / 2)%R).
  destruct (base_Int_part r) as [H1 H2].
  assert (Hr : (/ 2 <= r <= 10000 + / 2)%R) by (unfold r; lra).
  assert (Hz0 : (-1 < Int_part r)%Z) by (apply lt_IZR; lra).
  assert (Hz1 : (Int_part r < 10001)%Z) by (apply lt_IZR; lra).
  exists (Int_part r). split; [lia|]. split; [reflexivity|].
  assert (H0 : (0 <= IZR (Int_part r))%R) by (apply IZR_le; lia).
  assert (H3 : (IZR (Int_part r) <= 10000)%R) by (apply IZR_le; lia).
  lra.
Qed.



(** Scenario A: one record in three, 33.33 percent. *)
Example scenario_A_rate :
  attritionRate ieee scenarioA = JS.Number "33.33"
  /\ map (fun d => (department d, count d, dept_attritionRate d))
         (topDepartments ieee scenarioA)
     = [("Sales", 2, JS.Number "50"); ("R&D", 1, JS.Number "0")].
Proof. vm_compute. split; reflexivity. Qed.

(** Scenario B: one record; no neighbour, a rate of 100 or 0. *)
Example scenario_B :
  option_map (@List.length _) (similar ieee [[("Attrition", VStr "Yes")]] 0)
  = Some 0
  /\ attritionRate ieee [[("Attrition", VStr "Yes")]] = JS.Number "100"
  /\ attritionRate ieee [[("Attrition", VStr "No")]] = JS.Number "0".
Proof. vm_compute. repeat split; reflexivity. Qed.

(** ** Department statistics (lines 77-90) *)

Lemma filter_filter' {X : Type} (p q : X -> bool) (l : list X) :
  filter p (filter q l) = filter (fun y => q y && p y) l.
Proof.
  induction l as [|x l IH]; simpl; [reflexivity|].
  destruct (q x); simpl; [destruct (p x)|]; now rewrite IH.
Qed.

Lemma first_occurrences_In (l : list string) (y : string) :
  In y (first_occurrences l) <-> In y l.
Proof.
  induction l as [|x l IH]; simpl; [tauto|].
  rewrite filter_In, IH, negb_true_iff.
  destruct (String.eqb_spec y x) as [->|Hne]; intuition congruence.
Qed.

Lemma first_occurrences_NoDup (l : list string) :
  NoDup (first_occurrences l).
Proof.
  induction l as [|x l IH]; simpl; constructor.
  - rewrite filter_In, String.eqb_refl. simpl. intros [_ H]. discriminate.
  - now apply NoDup_filter.
Qed.

Lemma fold_add_key (l : list string) :
  forall acc,
    fold_left add_key l acc
    = acc ++ filter (fun y => negb (existsb (String.eqb y) acc))
                    (first_occurrences l).
Proof.
  induction l as [|x l IH]; intros acc; simpl.
  - now rewrite app_nil_r.
  - rewrite IH. unfold add_key.
    destruct (existsb (String.eqb x) acc) eqn:E; simpl.
    + f_equal. rewrite filter_filter'. apply filter_ext_in. intros y _.
      destruct (String.eqb_spec y x) as [->|Hne]; simpl; [|reflexivity].
      now rewrite E.
    + rewrite <- app_assoc. simpl. do 2 f_equal.
      rewrite filter_filter'. apply filter_ext. intros y.
      rewrite existsb_app. simpl. rewrite orb_false_r, negb_orb.
      apply andb_comm.
Qed.

Lemma forEach_keys (D : list DatasetRow) :
  forall st,
    map fst (snd (fold_left forEach_body D st))
    = fold_left add_key (labels D) (map fst (snd st)).
Proof.
  unfold labels.
  induction D as [|row D IH]; intros st; simpl; [reflexivity|].
  rewrite IH, forEach_body_eq. simpl snd.
  destruct (JS.inherited (department_of row)); simpl; [reflexivity|].
  f_equal. rewrite own_set_keys. reflexivity.
Qed.

(** The own keys of [departmentStats], in creation order. *)
Lemma departmentStats_keys (D : list DatasetRow) :
  map fst (departmentStats D) = first_occurrences (labels D).
Proof.
  unfold departmentStats, forEach. rewrite forEach_keys, fold_add_key.
  simpl. clear. induction (first_occurrences (labels D)) as [|x l IH]; simpl;
    [reflexivity | now rewrite IH].
Qed.

Lemma forEach_stats (D : list DatasetRow) (d : string) :
  JS.inherited d = false ->
  forall st,
    JS.own_get (snd (fold_left forEach_body D st)) d
    = match JS.own_get (snd st) d with
      | Some e =>
          Some {| stat_count := stat_count e + label_count D d;
                  stat_attr := stat_attr e + label_attr D d |}
      | None =>
          if label_count D d =? 0 then None
          else Some {| stat_count := label_count D d;
                       stat_attr := label_attr D d |}
      end.
Proof.
  intros Hd. unfold label_count, label_attr.
  induction D as [|row D IH]; intros st; simpl.
  - destruct (JS.own_get (snd st) d) as [[c a]|]; [|reflexivity].
    simpl. now rewrite !Nat.add_0_r.
  - rewrite IH, forEach_body_eq. simpl snd.
    destruct (String.eqb_spec (department_of row) d) as [E|E].
    + rewrite E, Hd. cbv zeta. rewrite own_get_set, String.eqb_refl.
      simpl andb.
      destruct (JS.own_get (snd st) d) as [[c a]|]; simpl;
        destruct (attrited row); simpl; f_equal; f_equal; lia.
    + simpl andb.
      destruct (JS.inherited (department_of row)); [reflexivity|].
      cbv zeta. rewrite own_get_set.
      destruct (String.eqb_spec (department_of row) d); [contradiction|].
      reflexivity.
Qed.

(** What [departmentStats] holds for a label. *)
Lemma departmentStats_get (D : list DatasetRow) (d : string) :
  JS.inherited d = false ->
  JS.own_get (departmentStats D) d
  = if label_count D d =? 0 then None
    else Some {| stat_count := label_count D d;
                 stat_attr := label_attr D d |}.
Proof.
  intros Hd. unfold departmentStats, forEach.
  now rewrite (forEach_stats D d Hd).
Qed.

(** ** Own-property order *)

Section EntriesFacts.
Context {V : Type}.
Implicit Types (o : JS.object V).

Lemma insert_index_perm (e : Z * (string * V)) l :
  Permutation (e :: l) (JS.insert_index e l).
Proof.
  induction l as [|e' l IH]; simpl; [apply Permutation_refl|].
  destruct (fst e <? fst e')%Z; [apply Permutation_refl|].
  eapply perm_trans; [apply perm_swap | now apply perm_skip].
Qed.

Lemma sorted_index_perm (l : list (Z * (string * V))) :
  Permutation (fold_right JS.insert_index [] l) l.
Proof.
  induction l as [|e l IH]; simpl; [constructor|].
  eapply perm_trans; [apply Permutation_sym, insert_index_perm|].
  now apply perm_skip.
Qed.

Lemma insert_index_sorted (e : Z * (string * V)) l :
  StronglySorted (fun a b => (fst a <= fst b)%Z) l ->
  StronglySorted (fun a b => (fst a <= fst b)%Z) (JS.insert_index e l).
Proof.
  induction 1 as [|e' l HS IH He']; simpl; [repeat constructor|].
  destruct (Z.ltb_spec (fst e) (fst e')) as [Hlt|Hge].
  - constructor; [now constructor|]. constructor; [lia|].
    rewrite Forall_forall in *. intros z Hz. specialize (He' z Hz). lia.
  - constructor; [exact IH|].
    rewrite Forall_forall in *. intros z Hz.
    apply (Permutation_in _ (Permutation_sym (insert_index_perm e l))) in Hz.
    destruct Hz as [<-|Hz]; [lia | now apply He'].
Qed.

Lemma sorted_index_sorted (l : list (Z * (string * V))) :
  StronglySorted (fun a b => (fst a <= fst b)%Z)
                 (fold_right JS.insert_index [] l).
Proof.
  induction l as [|e l IH]; simpl; [constructor|].
  now apply insert_index_sorted.
Qed.

Lemma index_entries_named o :
  Permutation (map snd (JS.index_entries o) ++ JS.named_entries o) o.
Proof.
  unfold JS.index_entries, JS.named_entries.
  induction o as [|e o IH]; simpl; [constructor|].
  destruct (JS.array_index (fst e)); simpl.
  - now apply perm_skip.
  - eapply perm_trans; [apply Permutation_sym, Permutation_middle|].
    now apply perm_skip.
Qed.

(** [Object.entries] lists every own entry once. *)
Lemma entries_perm o : Permutation (JS.entries o) o.
Proof.
  unfold JS.entries.
  eapply perm_trans; [|apply index_entries_named].
  apply Permutation_app_tail, Permutation_map, sorted_index_perm.
Qed.

End EntriesFacts.

Example object_key_order_example :
  object_key_order ["b"; "2"; "a"; "1"; "10"; "01"]
  = ["1"; "2"; "10"; "b"; "a"; "01"].
Proof. reflexivity. Qed.

Lemma keys_by_creation {V : Type} (o : JS.object V) :
  JS.keys o = object_key_order (map fst o).
Proof.
  unfold object_key_order, JS.keys, JS.entries.
  rewrite !map_app, !map_map. f_equal.
  - unfold JS.index_entries.
    set (g := fun e : Z * (string * V) => (fst e, (fst (snd e), tt))).
    assert (Hins : forall e l,
               map g (JS.insert_index e l) = JS.insert_index (g e) (map g l)).
    { intros e l. induction l as [|e' l IH]; simpl; [reflexivity|].
      destruct (fst e <? fst e')%Z; simpl; [reflexivity | now rewrite IH]. }
    assert (Hsort : forall l,
               map g (fold_right JS.insert_index [] l)
               = fold_right JS.insert_index [] (map g l)).
    { induction l as [|e l IH]; simpl; [reflexivity|].
      now rewrite Hins, IH. }
    transitivity (map (fun e => fst (snd e))
                      (map g (fold_right JS.insert_index []
                                (flat_map (fun e =>
                                   match JS.array_index (fst e) with
                                   | Some i => [(i, e)]
                                   | None => []
                                   end) o)))).
    { now rewrite map_map. }
    rewrite Hsort. f_equal. f_equal.
    induction o as [|e o IH]; simpl; [reflexivity|].
    destruct (JS.array_index (fst e)); simpl; now rewrite IH.
  - unfold JS.named_entries.
    induction o as [|e o IH]; simpl; [reflexivity|].
    destruct (JS.array_index (fst e)); simpl; now rewrite IH.
Qed.

Lemma StronglySorted_listed_before {X : Type} (f : X -> string) (l : list X) :
  forall pre,
    StronglySorted (fun a b => listed_before (pre ++ map f l) (f a) (f b)) l.
Proof.
  induction l as [|x l IH]; intros pre; simpl; constructor.
  - specialize (IH (pre ++ [f x])). rewrite <- app_assoc in IH. exact IH.
  - rewrite Forall_forall. intros z Hz.
    destruct (in_split _ _ (in_map f _ _ Hz)) as [l1 [l2 E]].
    exists pre, l1, l2. now rewrite E.
Qed.

Lemma NoDup_firstn {X : Type} (n : nat) (l : list X) :
  NoDup l -> NoDup (firstn n l).
Proof.
  intros H. rewrite <- (firstn_skipn n l) in H.
  now apply NoDup_app_remove_r in H.
Qed.

(** ** Department summaries (lines 93-100) *)

Section Departments.
Variable Ar : Arith.

Local Abbreviation summaries := (summaries Ar).
Local Abbreviation rate_list := (rate_list Ar).

Lemma topDepartments_eq D :
  topDepartments Ar D = firstn 5 (sort Ar by_rate_desc (summaries D)).
Proof. reflexivity. Qed.

Lemma summaries_departments D :
  map department (summaries D)
  = object_key_order (first_occurrences (labels D)).
Proof.
  unfold summaries. rewrite map_map. simpl.
  rewrite <- departmentStats_keys, <- keys_by_creation. reflexivity.
Qed.

Lemma summaries_length D :
  List.length (summaries D) = List.length (first_occurrences (labels D)).
Proof.
  unfold summaries.
  rewrite length_map, (Permutation_length (entries_perm _)).
  now rewrite <- departmentStats_keys, length_map.
Qed.

Lemma summaries_In D s :
  In s (summaries D) ->
  In (department s) (labels D)
  /\ count s = label_count D (department s)
  /\ 0 < count s
  /\ dept_attritionRate s
     = percentage Ar (label_attr D (department s))
                     (label_count D (department s)).
Proof.
  unfold summaries. intros H. apply in_map_iff in H.
  destruct H as [[d e] [<- H]]. simpl.
  apply (Permutation_in _ (entries_perm _)) in H.
  assert (Hk : In d (labels D)).
  { apply first_occurrences_In. rewrite <- departmentStats_keys.
    apply in_map_iff. now exists (d, e). }
  assert (Hi : JS.inherited d = false).
  { unfold labels in Hk. apply filter_In in Hk.
    now apply negb_true_iff. }
  apply own_get_In in H.
  2:{ rewrite departmentStats_keys. apply first_occurrences_NoDup. }
  rewrite (departmentStats_get D d Hi) in H.
  destruct (Nat.eqb_spec (label_count D d) 0) as [E|E]; [discriminate|].
  injection H as <-. simpl. repeat split; trivial. lia.
Qed.

Lemma summaries_sorted D :
  comparator_consistent (rate_list D) ->
  StronglySorted (ranked_by_rate D) (sort Ar by_rate_desc (summaries D)).
Proof.
  intros [Hs Ha Hn].
  set (Pd := fun s : DepartmentSummary Ar =>
               In (dept_attritionRate s) (rate_list D)).
  set (T := fun a b : DepartmentSummary Ar =>
              listed_before (map department (summaries D))
                            (department a) (department b)).
  assert (HP : Forall Pd (summaries D)).
  { rewrite Forall_forall. intros s Hs'. unfold Pd, rate_list.
    now apply in_map. }
  assert (HS := sort_ranked Ar by_rate_desc Pd T).
  eapply StronglySorted_impl_In.
  2:{ apply HS; trivial.
      - intros x y Px Py. unfold before, by_rate_desc.
        rewrite (Hs _ _ Py Px), (Hs _ _ Px Py). intros H1 H2.
        rewrite (Ha _ _ Py Px H1) in H2. discriminate.
      - intros x y z Px Py Pz. unfold before, by_rate_desc.
        rewrite (Hs _ _ Pz Px), (Hs _ _ Py Px), (Hs _ _ Pz Py).
        intros H. destruct (Hn _ _ _ Pz Py Px H); tauto.
      - apply (StronglySorted_listed_before department (summaries D) []). }
  intros a b Ha' Hb' [H1 H2].
  assert (Pa : Pd a).
  { rewrite Forall_forall in HP. apply HP.
    eapply Permutation_in; [apply Permutation_sym, sort_perm | exact Ha']. }
  assert (Pb : Pd b).
  { rewrite Forall_forall in HP. apply HP.
    eapply Permutation_in; [apply Permutation_sym, sort_perm | exact Hb']. }
  unfold before, by_rate_desc in H1, H2.
  rewrite (Hs _ _ Pa Pb) in H1. rewrite (Hs _ _ Pb Pa) in H2.
  split.
  - now destruct (ltb Ar (dept_attritionRate a) (dept_attritionRate b)).
  - intros E. destruct H2 as [H2|H2]; [congruence|].
    unfold T in H2. now rewrite summaries_departments in H2.
Qed.

(** The shape of [topDepartments] on any dataset. *)
Lemma topDepartments_structure D :
  List.length (topDepartments Ar D)
  = Nat.min 5 (List.length (first_occurrences (labels D)))
  /\ NoDup (map department (topDepartments Ar D))
  /\ (forall s, In s (topDepartments Ar D) ->
        In (department s) (labels D)
        /\ count s = label_count D (department s)
        /\ 0 < count s
        /\ dept_attritionRate s
           = percentage Ar (label_attr D (department s))
                           (label_count D (department s)))
  /\ (comparator_consistent (rate_list D) ->
      StronglySorted (ranked_by_rate D) (topDepartments Ar D)).
Proof.
  rewrite topDepartments_eq.
  assert (Hperm := sort_perm Ar by_rate_desc (summaries D)).
  split; [|split; [|split]].
  - rewrite length_firstn, <- (Permutation_length Hperm).
    now rewrite summaries_length.
  - rewrite <- firstn_map. apply NoDup_firstn.
    apply (Permutation_NoDup (Permutation_map department Hperm)).
    rewrite summaries_departments. unfold object_key_order, JS.keys.
    apply (Permutation_NoDup
             (Permutation_sym (Permutation_map fst (entries_perm _)))).
    rewrite map_map. simpl. rewrite map_id.
    apply first_occurrences_NoDup.
  - intros s H. apply firstn_In in H.
    apply (Permutation_in _ (Permutation_sym Hperm)) in H.
    now apply summaries_In.
  - intros Hc. apply StronglySorted_firstn. now apply summaries_sorted.
Qed.

End Departments.

Lemma labels_all (D : list DatasetRow) :
  Forall (fun row => JS.inherited (department_of row) = false) D ->
  labels D = map department_of D.
Proof.
  unfold labels. induction 1 as [|row D H HD IH]; simpl; [reflexivity|].
  now rewrite H, IH.
Qed.

Lemma label_attr_le (D : list DatasetRow) (d : string) :
  label_attr D d <= label_count D d.
Proof.
  unfold label_attr, label_count.
  induction D as [|row D IH]; simpl; [lia|].
  destruct (String.eqb (department_of row) d); simpl; [|exact IH].
  destruct (attrited row); simpl; lia.
Qed.

(** The label of a record: the fixed one when the field is absent, null or
    undefined, the text of the value otherwise. *)
Lemma department_of_spec (row : DatasetRow) :
  match get row DEPARTMENT_FIELD with
  | VUndefined | VNull => department_of row = "Unknown Department"
  | v => department_of row = String_of v
  end.
Proof.
  unfold department_of. now destruct (get row DEPARTMENT_FIELD).
Qed.




(** In exact arithmetic the order of the summaries needs no side
    condition. *)
Corollary topDepartments_sorted_exact (D : list DatasetRow) :
  StronglySorted (@ranked_by_rate exact D) (topDepartments exact D).
Proof.
  destruct (topDepartments_structure exact D) as [_ [_ [_ H]]].
  apply H, exact_consistent.
Qed.

(** C10: a department whose text names a member of [Object.prototype] is
    not grouped at all: the record is counted in the total, and no summary
    entry carries its label. *)
Theorem department_named_like_prototype_member :
  department_of [("Department", VStr "constructor")] = "constructor"
  /\ departmentStats [[("Department", VStr "constructor")]] = []
  /\ topDepartments ieee [[("Department", VStr "constructor")]] = []
  /\ total [[("Department", VStr "constructor")]] = 1.
Proof. repeat split; reflexivity. Qed.

(** Apart from those names, every record is grouped under its label, and
    the label of a value other than null and undefined is its text. *)
Lemma grouped_under_label (D : list DatasetRow) (row : DatasetRow) :
  In row D ->
  JS.inherited (department_of row) = false ->
  JS.own_get (departmentStats D) (department_of row)
  = Some {| stat_count := label_count D (department_of row);
            stat_attr := label_attr D (department_of row) |}
  /\ 0 < label_count D (department_of row).
Proof.
  intros Hin Hd.
  assert (Hpos : 0 < label_count D (department_of row)).
  { unfold label_count. induction D as [|r D IH]; simpl in *; [tauto|].
    destruct Hin as [->|Hin].
    - rewrite String.eqb_refl. simpl. lia.
    - destruct (String.eqb (department_of r) (department_of row)); simpl;
        [lia | now apply IH]. }
  split; [|exact Hpos].
  rewrite (departmentStats_get D _ Hd).
  destruct (Nat.eqb_spec (label_count D (department_of row)) 0); [lia|].
  reflexivity.
Qed.

Example department_falsy_values :
  department_of [("Department", VStr "")] = ""
  /\ department_of [("Department", VNum PrimFloat.zero)] = "0"
  /\ department_of [("Department", VBool false)] = "false"
  /\ department_of [("Department", VNull)] = "Unknown Department"
  /\ department_of [] = "Unknown Department"
  /\ map (fun s => (department s, count s))
         (topDepartments ieee [[("Department", VStr "")]])
     = [("", 1)].
Proof. vm_compute. repeat split; reflexivity. Qed.

(** ** Degenerate data *)

Section Degenerate.
Variable Ar : Arith.

(** An element that the comparator never ranks first goes to the end. *)
Lemma sort_insert_last {X : Type} (comparefn : X -> X -> num Ar) x l :
  (forall y, In y l -> ltb Ar (comparefn x y) (zero Ar) = false) ->
  sort_insert Ar comparefn x l = l ++ [x].
Proof.
  induction l as [|y l IH]; intros H; simpl; [reflexivity|].
  rewrite (H y (or_introl eq_refl)). f_equal. apply IH.
  intros z Hz. apply H. now right.
Qed.

Lemma sort_all_ties {X : Type} (comparefn : X -> X -> num Ar) (l : list X) :
  (forall x y, In x l -> In y l -> ltb Ar (comparefn x y) (zero Ar) = false) ->
  sort Ar comparefn l = l.
Proof.
  intros H. unfold sort.
  enough (G : forall rest acc,
             (forall x y, In x (acc ++ rest) -> In y (acc ++ rest) ->
                          ltb Ar (comparefn x y) (zero Ar) = false) ->
             fold_left (fun acc x => sort_insert Ar comparefn x acc) rest acc
             = acc ++ rest).
  { now apply (G l []). }
  induction rest as [|x rest IH]; intros acc Hall; simpl.
  - now rewrite app_nil_r.
  - rewrite sort_insert_last.
    + rewrite IH; [now rewrite <- app_assoc|].
      now rewrite <- app_assoc.
    + intros y Hy. apply Hall; apply in_or_app; [right; now left | now left].
Qed.

Lemma no_columns_matrix D :
  numericCols Ar D = [] ->
  normalizedMatrix Ar D = map (fun _ => []) D.
Proof.
  intros H. unfold normalizedMatrix, numericMatrix. rewrite H, map_map.
  reflexivity.
Qed.

Lemma no_columns_entries D :
  numericCols Ar D = [] ->
  sqrt Ar (zero Ar) = zero Ar ->
  mapi (entry_of D []) (normalizedMatrix Ar D) = zero_entries D.
Proof.
  intros H Hsqrt. rewrite (no_columns_matrix D H).
  apply nth_error_ext. intros k. unfold zero_entries.
  rewrite !mapi_nth_error, nth_error_map.
  destruct (nth_error D k) as [row|] eqn:E; simpl; [|reflexivity].
  unfold entry_of, sum_squares, reducei. simpl.
  now rewrite Hsqrt, (nth_error_nth _ _ _ E).
Qed.

End Degenerate.

(** C9: on a non-empty dataset and a valid index the handler never answers
    with the status of a failed computation; when no column qualifies as
    numeric (and the arithmetic has sqrt 0 = 0 and does not call 0 - 0
    negative, as both instances do) the vectors have no component, every
    distance is 0, and the neighbours are the records other than the
    target in ascending position, cut to ten. *)
Theorem degenerate_data_no_error (Ar : Arith) (D : list DatasetRow) (i : nat) :
  D <> [] ->
  i < List.length D ->
  (exists r,
      POST Ar {| dataset := Some D; index := Some (Z.of_nat i) |}
      = Status200 r)
  /\ (numericCols Ar D = [] ->
      sqrt Ar (zero Ar) = zero Ar ->
      ltb Ar (sub Ar (zero Ar) (zero Ar)) (zero Ar) = false ->
      Forall (fun v => v = []) (normalizedMatrix Ar D)
      /\ similar Ar D i
         = Some (firstn 10
                   (filter (fun e => negb (se_index e =? i)) (zero_entries D)))).
Proof.
  intros HD Hi. split.
  - destruct (POST_in_range Ar D (Z.of_nat i)) as [target [_ HP]]; [lia|].
    eexists. exact HP.
  - intros Hcols Hsqrt Hcmp.
    assert (HNM := no_columns_matrix Ar D Hcols).
    split.
    + rewrite HNM, Forall_forall. intros v Hv.
      apply in_map_iff in Hv. now destruct Hv as [_ [<- _]].
    + assert (Ht : nth_error (normalizedMatrix Ar D) i = Some []).
      { rewrite HNM, nth_error_map.
        destruct (nth_error D i) eqn:E; [reflexivity|].
        apply nth_error_None in E. lia. }
      unfold similar. rewrite (distances_Some Ar D i [] Ht). simpl.
      rewrite (no_columns_entries Ar D Hcols Hsqrt).
      rewrite sort_all_ties; [reflexivity|].
      intros x y Hx Hy. unfold zero_entries, mapi in Hx, Hy.
      rewrite mapi_from_seq in Hx, Hy.
      apply in_map_iff in Hx. destruct Hx as [px [<- _]].
      apply in_map_iff in Hy. destruct Hy as [py [<- _]].
      exact Hcmp.
Qed.

Lemma degenerate_data_no_error_witness :
  (exists r,
      POST ieee {| dataset := Some text_only; index := Some (Z.of_nat 1) |}
      = Status200 r)
  /\ Forall (fun v => v = []) (normalizedMatrix ieee text_only)
  /\ similar ieee text_only 1
     = Some (firstn 10
               (filter (fun e => negb (se_index e =? 1))
                       (zero_entries text_only))).
Proof.
  destruct (degenerate_data_no_error ieee text_only 1) as [H1 H2].
  - discriminate.
  - simpl. lia.
  - split; [exact H1|]. apply H2; reflexivity.
Defined.

(** The same run, evaluated: records 0 and 2, both at distance 0. *)
Example text_only_neighbours :
  option_map (map (fun e => (se_index e, distance e))) (similar ieee text_only 1)
  = Some [(0, PrimFloat.zero); (2, PrimFloat.zero)].
Proof. vm_compute. reflexivity. Qed.

(** ** Normalization (lines 109-129) *)

Section Normalization.
Variable Ar : Arith.

Lemma cell_numericRow (row : DatasetRow) (cols : list string) j column :
  nth_error cols j = Some column ->
  cell Ar (map (fun c => of_double Ar (toNumber (get row c))) cols) j
  = of_double Ar (toNumber (get row column)).
Proof.
  intros H. unfold cell. apply nth_error_nth.
  now rewrite nth_error_map, H.
Qed.

Lemma fold_column {Y : Type} (F : Y -> num Ar -> Y) D j column :
  nth_error (numericCols Ar D) j = Some column ->
  forall acc,
    fold_left (fun acc numericRow => F acc (cell Ar numericRow j))
              (numericMatrix Ar D) acc
    = fold_left F (column_values D column) acc.
Proof.
  intros H. unfold numericMatrix, column_values.
  set (cols := numericCols Ar D) in *. clearbody cols.
  induction D as [|row D' IH]; intros acc; simpl; [reflexivity|].
  rewrite (cell_numericRow row _ _ _ H). apply IH.
Qed.

Lemma means_nth D j column :
  nth_error (numericCols Ar D) j = Some column ->
  nth_error (means Ar D) j = Some (mean_of (column_values D column)).
Proof.
  intros H. unfold means. rewrite mapi_nth_error, H. simpl. f_equal.
  unfold mean_of. rewrite (fold_column (add Ar) D j column H).
  unfold column_values, numericMatrix. now rewrite !length_map.
Qed.

Lemma stdDevs_nth D j column :
  nth_error (numericCols Ar D) j = Some column ->
  nth_error (stdDevs Ar D) j = Some (effective_std (column_values D column)).
Proof.
  intros H. unfold stdDevs. rewrite mapi_nth_error, H. simpl. f_equal.
  rewrite (nth_error_nth _ _ _ (means_nth D j column H)).
  unfold effective_std, population_variance.
  rewrite (fold_column
             (fun acc v =>
                add Ar acc
                  (square Ar (sub Ar v (mean_of (column_values D column)))))
             D j column H).
  unfold column_values, numericMatrix. now rewrite !length_map.
Qed.

Lemma normalized_nth D j column r row :
  nth_error (numericCols Ar D) j = Some column ->
  nth_error D r = Some row ->
  exists v,
    nth_error (normalizedMatrix Ar D) r = Some v
    /\ nth_error v j
       = Some (div Ar
                 (sub Ar (of_double Ar (toNumber (get row column)))
                         (mean_of (column_values D column)))
                 (effective_std (column_values D column))).
Proof.
  intros Hj Hr. unfold normalizedMatrix.
  rewrite nth_error_map, (numericMatrix_row Ar D r row Hr). simpl.
  eexists. split; [reflexivity|].
  rewrite mapi_nth_error, nth_error_map, Hj. simpl.
  now rewrite (nth_error_nth _ _ _ (means_nth D j column Hj)),
              (nth_error_nth _ _ _ (stdDevs_nth D j column Hj)).
Qed.

End Normalization.

(** *** A constant column in exact arithmetic *)

Lemma Rmean_constant (x c : R) : x <> 0%R -> ((0 + x * c) / x = c)%R.
Proof. intros H. field. exact H. Qed.

Lemma Rsquare_step (acc v c : R) :
  v = c -> (acc + (v - c) * (v - c) = acc)%R.
Proof. intros ->. lra. Qed.

Lemma Rzero_div (x : R) : (0 / x = 0)%R.
Proof. unfold Rdiv. apply Rmult_0_l. Qed.

Lemma Rnormalized_constant (c : R) : ((c - c) / 1 = 0)%R.
Proof. unfold Rdiv. lra. Qed.

Lemma Rno_contribution : ((0 - 0) * (0 - 0) = 0)%R.
Proof. lra. Qed.

Lemma fold_Rplus_constant (c : R) (vs : list R) :
  (forall v, In v vs -> v = c) ->
  forall acc, fold_left Rplus vs acc = (acc + INR (List.length vs) * c)%R.
Proof.
  induction vs as [|v vs IH]; intros H acc.
  - simpl. lra.
  - cbn [fold_left List.length]. rewrite S_INR, IH.
    + rewrite (H v (or_introl eq_refl)). lra.
    + intros w Hw. apply H. now right.
Qed.

Lemma mean_of_constant (c : R) (vs : list R) :
  vs <> [] -> (forall v, In v vs -> v = c) ->
  @mean_of exact vs = c.
Proof.
  intros Hne H. unfold mean_of. cbn [div add zero of_nat exact].
  rewrite (fold_Rplus_constant c vs H).
  assert (Hn : INR (List.length vs) <> 0%R).
  { apply not_0_INR. destruct vs; [contradiction | discriminate]. }
  now apply Rmean_constant.
Qed.

Lemma variance_of_constant (c : R) (vs : list R) :
  vs <> [] -> (forall v, In v vs -> v = c) ->
  @population_variance exact vs = 0%R.
Proof.
  intros Hne H. unfold population_variance.
  rewrite (mean_of_constant c vs Hne H).
  cbn [div add sub zero of_nat exact]. unfold square. cbn [mul exact].
  assert (Hsum : forall acc,
             fold_left (fun acc v => (acc + (v - c) * (v - c))%R) vs acc = acc).
  { clear Hne. induction vs as [|v vs IH]; intros acc; simpl; [reflexivity|].
    rewrite IH.
    - apply Rsquare_step, H. now left.
    - intros w Hw. apply H. now right. }
  rewrite Hsum. apply Rzero_div.
Qed.

Lemma effective_std_constant (c : R) (vs : list R) :
  vs <> [] -> (forall v, In v vs -> v = c) ->
  @effective_std exact vs = 1%R.
Proof.
  intros Hne H. unfold effective_std.
  rewrite (variance_of_constant c vs Hne H).
  cbn [sqrt ltb zero of_nat exact]. rewrite sqrt_0.
  assert (E : Rltb 0 0 = false) by (apply Rltb_false; lra).
  rewrite E. reflexivity.
Qed.




(** ** The threshold of the classifier, evaluated *)

(** In exact arithmetic the test [count / total >= 0.7] is the comparison
    of integers [7 * total <= 10 * count]: the threshold is inclusive. *)
Lemma clears_threshold_exact (D : list DatasetRow) (column : string) :
  D <> [] ->
  clears_threshold exact D column = true
  <-> 7 * List.length D <= 10 * numeric_like_count D column.
Proof.
  intros HD. unfold clears_threshold. cbn [leb seven_tenths div of_nat exact].
  rewrite Rleb_true.
  set (c := numeric_like_count D column). set (t := List.length D).
  assert (Ht : (0 < INR t)%R).
  { apply lt_0_INR. unfold t. destruct D; [contradiction | simpl; lia]. }
  set (q := (INR c / INR t)%R).
  assert (Hq : (q * INR t = INR c)%R) by (unfold q; field; lra).
  assert (H7 : INR (7 * t) = (7 * INR t)%R).
  { rewrite mult_INR. f_equal. rewrite INR_IZR_INZ. reflexivity. }
  assert (H10 : INR (10 * c) = (10 * INR c)%R).
  { rewrite mult_INR. f_equal. rewrite INR_IZR_INZ. reflexivity. }
  split.
  - intros H. apply INR_le. rewrite H7, H10. nra.
  - intros H. apply le_INR in H. rewrite H7, H10 in H. nra.
Qed.

(** Scenario C: two parseable values out of three stay below the
    threshold. *)
Example scenario_C :
  numericCols ieee
    [ [("x", VStr "35")]; [("x", VStr "41")]; [("x", VStr "abc")] ] = [].
Proof. vm_compute. reflexivity. Qed.

(** Seven numeric-like values out of ten reach it, on the doubles too; an
    identifier column is left out whatever it holds. *)
Example threshold_inclusive :
  numericCols ieee
    (repeat [("EmployeeNumber", VNum 0x1p+0%float); ("x", VStr " 35 ")] 7
     ++ repeat [("EmployeeNumber", VNum 0x1p+0%float); ("x", VNull)] 3)
  = ["x"].
Proof. vm_compute. reflexivity. Qed.

(* ================================================================== *)
(** * Further properties of the analysis handler                       *)
(* ================================================================== *)

(** ** Classification and coercion read the same number *)

Lemma starts_clean_fixed (back : bool) (l : list ascii) :
  starts_clean back l -> JS.strip back l = l.
Proof.
  destruct l as [|a [|b [|c r3]]]; simpl; trivial.
  - intros [-> _]. reflexivity.
  - intros [-> [-> _]]. reflexivity.
  - intros [-> [-> ->]]. reflexivity.
Qed.

Lemma strip_suffix_clean (back : bool) (l : list ascii) :
  starts_clean back (JS.strip back l)
  /\ exists pre, l = pre ++ JS.strip back l.
Proof.
  remember (List.length l) as n eqn:Hn. revert l Hn.
  induction n as [n IH] using lt_wf_ind. intros l Hn.
  assert (Hrec : forall pre r, l = pre ++ r -> pre <> [] ->
             starts_clean back (JS.strip back r)
             /\ exists pre', l = pre' ++ JS.strip back r).
  { intros pre r E Hpre.
    assert (Hlt : List.length r < n).
    { subst n. rewrite E, length_app. destruct pre; [contradiction|simpl; lia]. }
    destruct (IH _ Hlt r eq_refl) as [H1 [p H2]].
    split; [exact H1|]. exists (pre ++ p). rewrite <- app_assoc, <- H2.
    exact E. }
  destruct l as [|a [|b [|c r3]]].
  - simpl. split; [exact I | now exists []].
  - simpl. destruct (JS.ws1 a) eqn:E1.
    + simpl. split; [exact I | now exists [a]].
    + split; [simpl; now rewrite E1 | now exists []].
  - cbn [JS.strip]. destruct (JS.ws1 a) eqn:E1.
    + apply (Hrec [a] [b]); [reflexivity | discriminate].
    + destruct (if back then JS.ws2 b a else JS.ws2 a b) eqn:E2.
      * simpl. split; [exact I | now exists [a; b]].
      * split; [simpl; now rewrite E1, E2 | now exists []].
  - cbn [JS.strip]. destruct (JS.ws1 a) eqn:E1.
    + apply (Hrec [a] (b :: c :: r3)); [reflexivity | discriminate].
    + destruct (if back then JS.ws2 b a else JS.ws2 a b) eqn:E2.
      * apply (Hrec [a; b] (c :: r3)); [reflexivity | discriminate].
      * destruct (if back then JS.ws3 c b a else JS.ws3 a b c) eqn:E3.
        -- apply (Hrec [a; b; c] r3); [reflexivity | discriminate].
        -- split; [simpl; now rewrite E1, E2, E3 | now exists []].
Qed.

Lemma starts_clean_prefix (l p s : list ascii) :
  starts_clean false l -> l = p ++ s -> starts_clean false p.
Proof.
  intros H ->.
  destruct p as [|a [|b [|c p]]]; simpl in *; trivial;
    try tauto; destruct s; simpl in *; tauto.
Qed.

(** [trim] removes all the white space [Number] would skip: trimming twice
    is trimming once. *)
Lemma trim_list_idempotent (l : list ascii) :
  JS.trim_list (JS.trim_list l) = JS.trim_list l.
Proof.
  unfold JS.trim_list.
  destruct (strip_suffix_clean false l) as [Hc1 _].
  set (l1 := JS.strip false l) in *.
  destruct (strip_suffix_clean true (rev l1)) as [Hc2 [pre Hpre]].
  set (l2 := JS.strip true (rev l1)) in *.
  assert (Hp : l1 = rev l2 ++ rev pre).
  { rewrite <- rev_app_distr, <- Hpre. now rewrite rev_involutive. }
  rewrite (starts_clean_fixed false (rev l2)
             (starts_clean_prefix _ _ _ Hc1 Hp)).
  rewrite rev_involutive.
  now rewrite (starts_clean_fixed true l2 Hc2).
Qed.

Lemma Number_trim (s : string) : JS.Number (JS.trim s) = JS.Number s.
Proof.
  unfold JS.Number, JS.trim.
  now rewrite list_ascii_of_string_of_list_ascii, trim_list_idempotent.
Qed.

Lemma Number_blank (s : string) :
  JS.trim s = "" -> JS.Number s = PrimFloat.zero.
Proof.
  unfold JS.Number, JS.trim. intros H.
  destruct (JS.trim_list (list_ascii_of_string s)); [reflexivity|].
  discriminate.
Qed.

(** X1: a value that [isNumericLike] rejects is coerced to 0 by [toNumber]:
    the cells that do not count towards the 70 % of a column never carry a
    number of their own into the normalization. *)
Theorem rejected_value_coerces_to_zero (v : value) :
  isNumericLike v = false -> toNumber v = PrimFloat.zero.
Proof.
  destruct v as [| |b|x|s]; simpl; trivial.
  - intros H. now rewrite H.
  - destruct (String.eqb_spec (JS.trim s) "") as [E|E].
    + intros _. rewrite (Number_blank s E). reflexivity.
    + rewrite negb_false_iff, Number_trim. unfold JS.isNaN, JS.isFinite.
      intros H. unfold is_finite. now rewrite H.
Qed.

Lemma rejected_value_coerces_to_zero_witness :
  toNumber (VStr " n/a ") = PrimFloat.zero.
Proof. apply (rejected_value_coerces_to_zero (VStr " n/a ")). reflexivity. Defined.

(** X2: on a value that [isNumericLike] accepts, [toNumber] returns the
    number the classifier looked at (the number itself, or the trimmed
    string parsed) unless that number is an infinity, which it replaces
    by 0. *)
Theorem accepted_value_coerces_to_its_number (v : value) :
  isNumericLike v = true ->
  exists x,
    (v = VNum x \/ exists s, v = VStr s /\ x = JS.Number (JS.trim s))
    /\ JS.isNaN x = false
    /\ toNumber v = if JS.isFinite x then x else PrimFloat.zero.
Proof.
  intros H. apply isNumericLike_spec in H.
  destruct H as [[x [-> Hx]]|[s [-> [_ Hs]]]].
  - exists x. split; [now left|]. split; [|reflexivity].
    unfold JS.isFinite, is_finite in Hx. unfold JS.isNaN.
    destruct (is_nan x); [discriminate | reflexivity].
  - exists (JS.Number (JS.trim s)). split; [right; now exists s|].
    split; [exact Hs|]. simpl. now rewrite Number_trim.
Qed.

Lemma accepted_value_coerces_to_its_number_witness :
  exists x,
    (VStr " 41 " = VNum x
     \/ exists s, VStr " 41 " = VStr s /\ x = JS.Number (JS.trim s))
    /\ JS.isNaN x = false
    /\ toNumber (VStr " 41 ") = if JS.isFinite x then x else PrimFloat.zero.
Proof.
  apply (accepted_value_coerces_to_its_number (VStr " 41 ")). reflexivity.
Defined.

(** ** Shape of the matrices and divisors *)

(** X3: the numeric and the normalized matrix have one row per record and
    one entry per numeric column in every row, and there is one mean and
    one standard deviation per numeric column: all the vectors compared
    have the same dimension. *)
Theorem matrices_have_one_shape (Ar : Arith) (D : list DatasetRow) :
  List.length (numericMatrix Ar D) = List.length D
  /\ List.length (normalizedMatrix Ar D) = List.length D
  /\ Forall (fun v => List.length v = List.length (numericCols Ar D))
            (numericMatrix Ar D)
  /\ Forall (fun v => List.length v = List.length (numericCols Ar D))
            (normalizedMatrix Ar D)
  /\ List.length (means Ar D) = List.length (numericCols Ar D)
  /\ List.length (stdDevs Ar D) = List.length (numericCols Ar D).
Proof.
  split; [apply numericMatrix_length|].
  split; [apply normalizedMatrix_length|].
  split.
  { rewrite Forall_forall. intros v Hv. unfold numericMatrix in Hv.
    apply in_map_iff in Hv. destruct Hv as [row [<- _]]. apply length_map. }
  split.
  { rewrite Forall_forall. intros v Hv.
    now apply normalizedMatrix_row_length. }
  split; [apply means_length | apply stdDevs_length].
Qed.

(** X4: no division by zero in the normalization: every standard
    deviation the rows are divided by is strictly positive (the computed
    one when it is above 0, the literal 1 otherwise), provided the
    arithmetic has 0 < 1. *)
Theorem divisors_are_positive (Ar : Arith) (D : list DatasetRow) :
  ltb Ar (zero Ar) (of_nat Ar 1) = true ->
  Forall (fun s => ltb Ar (zero Ar) s = true) (stdDevs Ar D).
Proof.
  intros H1. rewrite Forall_forall. intros s Hs.
  unfold stdDevs, mapi in Hs. rewrite mapi_from_seq in Hs.
  apply in_map_iff in Hs. destruct Hs as [[j c] [<- _]]. cbv zeta.
  match goal with
  | |- ltb Ar _ (if ltb Ar ?z ?x then _ else _) = true =>
      destruct (ltb Ar z x) eqn:E; [exact E | exact H1]
  end.
Qed.

Lemma divisors_are_positive_witness :
  Forall (fun s => ltb ieee (zero ieee) s = true) (stdDevs ieee constant_tenths).
Proof. apply (divisors_are_positive ieee constant_tenths). reflexivity. Defined.

(** ** The department counts partition the records *)

Lemma list_sum_Permutation (l l' : list nat) :
  Permutation l l' -> list_sum l = list_sum l'.
Proof.
  induction 1 as [|x l l' H IH|x y l|l l' l'' H1 IH1 H2 IH2]; simpl; lia.
Qed.

Lemma list_sum_firstn (n : nat) (l : list nat) :
  list_sum (firstn n l) <= list_sum l.
Proof.
  revert n. induction l as [|x l IH]; intros [|n]; simpl; try lia.
  specialize (IH n). lia.
Qed.

Lemma own_set_sum (f : DeptStats -> nat) (o : JS.object DeptStats)
  (k : string) (v : DeptStats) :
  list_sum (map (fun e => f (snd e)) (JS.own_set o k v))
  + match JS.own_get o k with Some e => f e | None => 0 end
  = list_sum (map (fun e => f (snd e)) o) + f v.
Proof.
  induction o as [|[k0 v0] o IH]; simpl; [lia|].
  destruct (String.eqb k0 k); simpl; lia.
Qed.

Lemma forEach_sums (D : list DatasetRow) :
  forall st,
    sum_count (snd (fold_left forEach_body D st))
    = sum_count (snd st) + List.length (grouped D)
    /\ sum_attr (snd (fold_left forEach_body D st))
       = sum_attr (snd st) + List.length (filter attrited (grouped D)).
Proof.
  unfold grouped.
  induction D as [|row D IH]; intros st; simpl; [split; lia|].
  destruct (IH (forEach_body st row)) as [H1 H2]. rewrite H1, H2.
  rewrite forEach_body_eq. simpl snd.
  destruct (JS.inherited (department_of row)); simpl; [split; lia|].
  set (d := department_of row).
  set (cur := match JS.own_get (snd st) d with
              | Some e => e
              | None => {| stat_count := 0; stat_attr := 0 |}
              end).
  pose proof (own_set_sum stat_count (snd st) d
                {| stat_count := S (stat_count cur);
                   stat_attr := if attrited row then S (stat_attr cur)
                                else stat_attr cur |}) as Hc.
  pose proof (own_set_sum stat_attr (snd st) d
                {| stat_count := S (stat_count cur);
                   stat_attr := if attrited row then S (stat_attr cur)
                                else stat_attr cur |}) as Ha.
  unfold sum_count, sum_attr. unfold cur in *.
  destruct (JS.own_get (snd st) d) as [e|]; simpl in Hc, Ha;
    destruct (attrited row); simpl in *; split; lia.
Qed.

Lemma grouped_all (D : list DatasetRow) :
  Forall (fun row => JS.inherited (department_of row) = false) D ->
  grouped D = D.
Proof.
  unfold grouped. induction 1 as [|row D H HD IH]; simpl; [reflexivity|].
  rewrite H. simpl. now rewrite IH.
Qed.

(** X5: [departmentStats] partitions the records it groups: over all its
    entries the counts add up to the number of grouped records and the
    attrition counts to the number of those that count as attrition; the
    counts listed in the response never add up to more than the total, and
    add up to the total when no label names an inherited member and there
    are at most five departments. *)
Theorem department_counts_partition (Ar : Arith) (D : list DatasetRow) :
  sum_count (departmentStats D) = List.length (grouped D)
  /\ sum_attr (departmentStats D) = List.length (filter attrited (grouped D))
  /\ list_sum (map count (topDepartments Ar D)) <= total D
  /\ (Forall (fun row => JS.inherited (department_of row) = false) D ->
      List.length (first_occurrences (map department_of D)) <= 5 ->
      list_sum (map count (topDepartments Ar D)) = total D).
Proof.
  destruct (forEach_sums D (0, [])) as [Hc Ha].
  fold (forEach D) in Hc, Ha. fold (departmentStats D) in Hc, Ha.
  simpl in Hc, Ha.
  assert (Hsum : list_sum (map count (sort Ar by_rate_desc (summaries Ar D)))
                 = List.length (grouped D)).
  { rewrite <- Hc. unfold sum_count.
    rewrite <- (list_sum_Permutation _ _
                  (Permutation_map count
                     (sort_perm Ar by_rate_desc (summaries Ar D)))).
    unfold summaries. rewrite map_map. simpl.
    apply list_sum_Permutation.
    apply (Permutation_map (fun e => stat_count (snd e))), entries_perm. }
  split; [exact Hc|]. split; [exact Ha|]. split.
  - rewrite topDepartments_eq, <- firstn_map.
    eapply Nat.le_trans; [apply list_sum_firstn|]. rewrite Hsum.
    unfold grouped, total. apply filter_length_le.
  - intros Hproto H5. rewrite topDepartments_eq.
    rewrite firstn_all2.
    + rewrite Hsum. unfold total. now rewrite (grouped_all D Hproto).
    + rewrite <- (Permutation_length (sort_perm Ar by_rate_desc _)).
      rewrite summaries_length, (labels_all D Hproto). exact H5.
Qed.

(** ** The entries kept are the best ones *)

Lemma StronglySorted_firstn_skipn {X : Type} (R : X -> X -> Prop) (n : nat)
  (l : list X) :
  StronglySorted R l ->
  forall a b, In a (firstn n l) -> In b (skipn n l) -> R a b.
Proof.
  intros H. revert n. induction H as [|x l HS IH Hx]; intros [|n] a b;
    simpl; try tauto.
  intros [<-|Ha] Hb.
  - rewrite Forall_forall in Hx. apply Hx.
    rewrite <- (firstn_skipn n l). apply in_or_app. now right.
  - now apply (IH n).
Qed.

Lemma In_firstn_or_skipn {X : Type} (n : nat) (l : list X) (x : X) :
  In x l -> In x (firstn n l) \/ In x (skipn n l).
Proof.
  intros H. rewrite <- (firstn_skipn n l) in H. now apply in_app_or.
Qed.

(** X6: the five departments listed are the five highest: when the
    comparator is consistent on the rates, no department left out of
    [topDepartments] has a rate strictly above that of a listed one. *)
Theorem unlisted_department_not_higher (Ar : Arith) (D : list DatasetRow) :
  comparator_consistent (rate_list Ar D) ->
  forall a b,
    In a (topDepartments Ar D) ->
    In b (summaries Ar D) ->
    ~ In b (topDepartments Ar D) ->
    ltb Ar (dept_attritionRate a) (dept_attritionRate b) = false.
Proof.
  intros Hc a b Ha Hb Hnot. rewrite topDepartments_eq in *.
  pose proof (summaries_sorted Ar D Hc) as HS.
  apply (Permutation_in _ (sort_perm Ar by_rate_desc (summaries Ar D))) in Hb.
  destruct (In_firstn_or_skipn 5 _ _ Hb) as [H|H]; [contradiction|].
  now destruct (StronglySorted_firstn_skipn _ 5 _ HS a b Ha H).
Qed.

Lemma unlisted_department_not_higher_witness :
  comparator_consistent (rate_list ieee six_departments)
  /\ forall a b,
       In a (topDepartments ieee six_departments) ->
       In b (summaries ieee six_departments) ->
       ~ In b (topDepartments ieee six_departments) ->
       ltb ieee (dept_attritionRate a) (dept_attritionRate b) = false.
Proof.
  assert (H : comparator_consistent (rate_list ieee six_departments)).
  { apply comparator_consistentb_sound. vm_compute. reflexivity. }
  split; [exact H | apply (unlisted_department_not_higher ieee six_departments H)].
Defined.

(** Six departments of one record each; only the last one has an
    attrition. *)
Example six_departments_listed :
  map department (topDepartments ieee six_departments)
  = ["F"; "A"; "B"; "C"; "D"].
Proof. vm_compute. reflexivity. Qed.

Lemma entries_indices (Ar : Arith) (D : list DatasetRow)
  (t : list (num Ar)) (l : list (list (num Ar))) :
  forall s, map se_index (mapi_from s (entry_of D t) l) = seq s (List.length l).
Proof.
  induction l as [|x l IH]; intros s; simpl; [reflexivity|]. now rewrite IH.
Qed.

Lemma map_filter_comm {X Y : Type} (f : X -> Y) (q : Y -> bool) (l : list X) :
  map f (filter (fun x => q (f x)) l) = filter q (map f l).
Proof.
  induction l as [|x l IH]; simpl; [reflexivity|].
  destruct (q (f x)); simpl; now rewrite IH.
Qed.



(** X8: no record is listed twice among the neighbours, every listed
    position is a position of the dataset, and a dataset of at most eleven
    records has all its records other than the target listed. *)
Theorem neighbours_are_distinct_records (Ar : Arith) (D : list DatasetRow)
  (i : nat) :
  i < List.length D ->
  exists neighbours,
    similar Ar D i = Some neighbours
    /\ NoDup (map se_index neighbours)
    /\ (forall e, In e neighbours -> se_index e < List.length D)
    /\ (List.length D <= 11 ->
        forall k, k < List.length D -> k <> i ->
                  In k (map se_index neighbours)).
Proof.
  intros Hi.
  destruct (target_defined Ar D i Hi) as [target Ht].
  eexists.
  destruct (neighbours_structure Ar D i target Hi Ht _ eq_refl)
    as [H1 [H2 [H3 H4]]].
  split; [exact H1|].
  set (all := filter (fun e => negb (se_index e =? i))
                (sort Ar by_distance
                   (mapi (entry_of D target) (normalizedMatrix Ar D)))) in *.
  assert (Hidx : Permutation (map se_index all)
                   (filter (fun k => negb (k =? i)) (seq 0 (List.length D)))).
  { eapply perm_trans; [apply Permutation_map, H3|].
    rewrite (map_filter_comm se_index (fun k => negb (k =? i))).
    unfold mapi. rewrite entries_indices, normalizedMatrix_length.
    apply Permutation_refl. }
  split; [|split].
  - rewrite <- firstn_map. apply NoDup_firstn.
    apply (Permutation_NoDup (Permutation_sym Hidx)).
    apply NoDup_filter, seq_NoDup.
  - intros e He. apply firstn_In in He.
    apply (in_map se_index) in He.
    apply (Permutation_in _ Hidx) in He. apply filter_In in He.
    destruct He as [He _]. apply in_seq in He. lia.
  - intros H11 k Hk Hne.
    assert (Hall : In k (map se_index all)).
    { apply (Permutation_in _ (Permutation_sym Hidx)). apply filter_In.
      split; [apply in_seq; lia | now apply negb_true_iff, Nat.eqb_neq]. }
    rewrite firstn_all2; [exact Hall|].
    assert (Hlen : S (List.length all) = List.length D).
    { rewrite (Permutation_length H3). unfold mapi.
      rewrite (entries_without_target Ar D target i _ 0).
      - apply normalizedMatrix_length.
      - rewrite normalizedMatrix_length. lia. }
    lia.
Qed.

Lemma neighbours_are_distinct_records_witness :
  exists neighbours,
    similar ieee scenarioA 0 = Some neighbours
    /\ NoDup (map se_index neighbours)
    /\ (forall e, In e neighbours -> se_index e < List.length scenarioA)
    /\ (List.length scenarioA <= 11 ->
        forall k, k < List.length scenarioA -> k <> 0 ->
                  In k (map se_index neighbours)).
Proof.
  apply (neighbours_are_distinct_records ieee scenarioA 0). simpl. lia.
Defined.

(** ** Distances in exact arithmetic *)

Lemma euclidean_same (v : list R) : euclidean exact v v = 0%R.
Proof.
  unfold euclidean. cbn [sqrt add mul sub zero exact].
  assert (H : forall acc,
             fold_left (fun acc p =>
                          (acc + (fst p - snd p) * (fst p - snd p))%R)
                       (combine v v) acc = acc).
  { induction v as [|x v IH]; intros acc; simpl; [reflexivity|].
    rewrite IH. now apply Rsquare_step. }
  rewrite H. apply sqrt_0.
Qed.

Lemma normalized_rows_agree (Ar : Arith) (D : list DatasetRow) (r r' : nat)
  (row row' : DatasetRow) (v v' : list (num Ar)) :
  nth_error D r = Some row ->
  nth_error D r' = Some row' ->
  (forall c, In c (numericCols Ar D) ->
             toNumber (get row c) = toNumber (get row' c)) ->
  nth_error (normalizedMatrix Ar D) r = Some v ->
  nth_error (normalizedMatrix Ar D) r' = Some v' ->
  v = v'.
Proof.
  intros Hr Hr' Hsame Hv Hv'. unfold normalizedMatrix in Hv, Hv'.
  rewrite nth_error_map, (numericMatrix_row Ar D r row Hr) in Hv.
  rewrite nth_error_map, (numericMatrix_row Ar D r' row' Hr') in Hv'.
  simpl in Hv, Hv'. injection Hv as <-. injection Hv' as <-.
  f_equal. apply map_ext_in. intros c Hc. now rewrite (Hsame c Hc).
Qed.



(** ** The order of the records *)

Lemma filter_length_Permutation {X : Type} (f : X -> bool) (l l' : list X) :
  Permutation l l' ->
  List.length (filter f l) = List.length (filter f l').
Proof. intros H. apply Permutation_length. now apply filter_Permutation. Qed.

Lemma inherited_not_a_key (D : list DatasetRow) (d : string) :
  JS.inherited d = true -> JS.own_get (departmentStats D) d = None.
Proof.
  intros H. apply own_get_None. rewrite departmentStats_keys.
  rewrite first_occurrences_In. unfold labels. rewrite filter_In.
  intros [_ E]. rewrite H in E. discriminate.
Qed.

(** X10: the overall attrition rate and what [departmentStats] holds for
    each department do not depend on the order of the records (the order of
    the entries, and with it the tie-break, does). *)
Theorem statistics_ignore_record_order (Ar : Arith) (D D' : list DatasetRow) :
  Permutation D D' ->
  total D = total D'
  /\ attritionRate Ar D = attritionRate Ar D'
  /\ forall d, JS.own_get (departmentStats D) d
               = JS.own_get (departmentStats D') d.
Proof.
  intros H.
  assert (Ht : total D = total D') by (apply Permutation_length, H).
  split; [exact Ht|]. split.
  - unfold attritionRate. rewrite Ht, !attritionCount_eq.
    now rewrite (filter_length_Permutation attrited D D' H).
  - intros d. destruct (JS.inherited d) eqn:E.
    + now rewrite !inherited_not_a_key.
    + rewrite !departmentStats_get by exact E.
      unfold label_count, label_attr.
      rewrite (filter_length_Permutation _ D D' H).
      now rewrite (filter_length_Permutation
                     (fun row => String.eqb (department_of row) d
                                 && attrited row) D D' H).
Qed.

Lemma statistics_ignore_record_order_witness :
  Permutation scenarioA (rev scenarioA)
  /\ total scenarioA = total (rev scenarioA)
  /\ attritionRate ieee scenarioA = attritionRate ieee (rev scenarioA)
  /\ forall d, JS.own_get (departmentStats scenarioA) d
               = JS.own_get (departmentStats (rev scenarioA)) d.
Proof.
  split; [apply Permutation_rev|].
  apply (statistics_ignore_record_order ieee scenarioA (rev scenarioA)).
  apply Permutation_rev.
Defined.

(** The numeric columns, by contrast, follow the first record: the same
    records in another order can give other columns. *)
Example numericCols_depend_on_first_record :
  numericCols ieee [ [("a", VNum 0x1p+0%float)]; [("b", VNum 0x1p+0%float)] ]
  = []
  /\ numericCols ieee
       [ [("a", VNum 0x1p+0%float)]; [("a", VNum 0x1p+0%float)];
         [("a", VNum 0x1p+0%float)]; [("b", VNum 0x1p+0%float)] ] = ["a"]
  /\ numericCols ieee
       [ [("b", VNum 0x1p+0%float)]; [("a", VNum 0x1p+0%float)];
         [("a", VNum 0x1p+0%float)]; [("a", VNum 0x1p+0%float)] ] = [].
Proof. vm_compute. repeat split; reflexivity. Qed.

(** ** The threshold in exact arithmetic *)



(** ** Normalized columns are standardized *)

Lemma fold_Rplus_acc (xs : list R) :
  forall acc, fold_left Rplus xs acc = (acc + fold_left Rplus xs 0)%R.
Proof.
  induction xs as [|x xs IH]; intros acc; simpl; [lra|].
  rewrite (IH (acc + x)%R), (IH (0 + x)%R). lra.
Qed.

Lemma fold_squares_acc (mu : R) (xs : list R) :
  forall acc,
    fold_left (fun a x => (a + (x - mu) * (x - mu))%R) xs acc
    = (acc + fold_left (fun a x => (a + (x - mu) * (x - mu))%R) xs 0)%R.
Proof.
  induction xs as [|x xs IH]; intros acc; simpl; [lra|].
  rewrite (IH (acc + _)%R), (IH (0 + _)%R). lra.
Qed.

Lemma fold_squares_nonneg (mu : R) (xs : list R) :
  (0 <= fold_left (fun a x => (a + (x - mu) * (x - mu))%R) xs 0)%R.
Proof.
  induction xs as [|x xs IH]; simpl; [lra|].
  rewrite fold_squares_acc. pose proof (Rle_0_sqr (x - mu)) as H.
  unfold Rsqr in H. lra.
Qed.

Lemma fold_squares_In (mu c : R) (xs : list R) :
  In c xs ->
  ((c - mu) * (c - mu)
   <= fold_left (fun a x => (a + (x - mu) * (x - mu))%R) xs 0)%R.
Proof.
  induction xs as [|x xs IH]; simpl; [tauto|].
  rewrite fold_squares_acc. intros [->|H].
  - pose proof (fold_squares_nonneg mu xs). lra.
  - specialize (IH H). pose proof (Rle_0_sqr (x - mu)) as Hx.
    unfold Rsqr in Hx. lra.
Qed.

(** The sum of the standardized values. *)
Lemma sum_standardized (mu sigma : R) (xs : list R) :
  forall acc,
    fold_left Rplus (map (fun x => ((x - mu) / sigma)%R) xs) acc
    = (acc + (fold_left Rplus xs 0 - INR (List.length xs) * mu) / sigma)%R.
Proof.
  induction xs as [|x xs IH]; intros acc.
  - simpl. unfold Rdiv. lra.
  - cbn [map fold_left List.length]. rewrite IH, S_INR.
    rewrite (fold_Rplus_acc xs (0 + x)%R). unfold Rdiv. lra.
Qed.

(** The sum of their squares. *)
Lemma squares_standardized (mu sigma : R) (xs : list R) :
  forall acc,
    fold_left (fun a z => (a + (z - 0) * (z - 0))%R)
              (map (fun x => ((x - mu) / sigma)%R) xs) acc
    = (acc
       + fold_left (fun a x => (a + (x - mu) * (x - mu))%R) xs 0
         * (/ sigma * / sigma))%R.
Proof.
  induction xs as [|x xs IH]; intros acc.
  - simpl. lra.
  - cbn [map fold_left]. rewrite IH.
    rewrite (fold_squares_acc mu xs (0 + _)%R). unfold Rdiv. lra.
Qed.

Lemma Rmean_zero (s n sigma : R) :
  n <> 0%R -> ((0 + (s - n * (s / n)) / sigma) / n = 0)%R.
Proof.
  intros Hn. replace (s - n * (s / n))%R with 0%R by (field; exact Hn).
  unfold Rdiv. lra.
Qed.

Lemma Rvariance_one (q n sigma : R) :
  n <> 0%R -> sigma <> 0%R -> (sigma * sigma = q / n)%R ->
  ((0 + q * (/ sigma * / sigma)) / n = 1)%R.
Proof.
  intros Hn Hs H.
  assert (Hq : q = (n * (sigma * sigma))%R) by (rewrite H; field; exact Hn).
  rewrite Hq. field. split; assumption.
Qed.

(** Mean and variance of the standardized values of a list with a
    positive variance. *)
Lemma standardized_list (xs : list R) :
  (0 < @population_variance exact xs)%R ->
  let zs := map (fun x => ((x - @mean_of exact xs)
                           / @effective_std exact xs)%R) xs in
  @mean_of exact zs = 0%R /\ @population_variance exact zs = 1%R.
Proof.
  intros Hv zs.
  assert (Hn : INR (List.length xs) <> 0%R).
  { apply not_0_INR. destruct xs; [|discriminate].
    unfold population_variance in Hv. cbn in Hv.
    rewrite Rzero_div in Hv. lra. }
  assert (Hs : @effective_std exact xs
               = R_sqrt.sqrt (@population_variance exact xs)).
  { unfold effective_std. cbn [sqrt ltb zero exact].
    destruct (Rltb 0 (R_sqrt.sqrt _)) eqn:E; [reflexivity|].
    apply Rltb_false in E. pose proof (sqrt_lt_R0 _ Hv). lra. }
  assert (Hpos : (0 < @effective_std exact xs)%R)
    by (rewrite Hs; now apply sqrt_lt_R0).
  assert (Hsq : (@effective_std exact xs * @effective_std exact xs
                 = @population_variance exact xs)%R)
    by (rewrite Hs; apply sqrt_sqrt; lra).
  assert (Hm : @mean_of exact zs = 0%R).
  { unfold mean_of at 1. cbn [div add zero of_nat exact]. unfold zs.
    rewrite length_map, sum_standardized.
    unfold mean_of. cbn [div add zero of_nat exact].
    now apply Rmean_zero. }
  split; [exact Hm|].
  unfold population_variance at 1. rewrite Hm.
  cbn [div add sub zero of_nat exact]. unfold square. cbn [mul exact].
  unfold zs. rewrite length_map, squares_standardized.
  apply Rvariance_one; [exact Hn | lra |].
  rewrite Hsq. unfold population_variance.
  cbn [div add sub zero of_nat exact]. unfold square. cbn [mul exact].
  reflexivity.
Qed.

Lemma variance_positive (xs : list R) (a b : R) :
  In a xs -> In b xs -> a <> b -> (0 < @population_variance exact xs)%R.
Proof.
  intros Ha Hb Hab. unfold population_variance.
  cbn [div add sub zero of_nat exact]. unfold square. cbn [mul exact].
  set (mu := @mean_of exact xs).
  assert (Hn : (0 < INR (List.length xs))%R).
  { apply lt_0_INR. destruct xs; [contradiction | simpl; lia]. }
  apply Rdiv_lt_0_compat; [|exact Hn].
  assert (Hc : exists c, In c xs /\ c <> mu).
  { destruct (Req_dec a mu) as [E|E]; [|now exists a].
    exists b. split; [exact Hb|]. intros E'. apply Hab. now rewrite E, E'. }
  destruct Hc as [c [Hc Hne]].
  pose proof (fold_squares_In mu c xs Hc) as H.
  change (0 < fold_left (fun a x : R => (a + (x - mu) * (x - mu))%R) xs 0)%R.
  assert (0 < (c - mu) * (c - mu))%R; [|lra].
  assert (Hd : (c - mu <> 0)%R) by lra.
  pose proof (Rsqr_pos_lt _ Hd) as Hp. unfold Rsqr in Hp. exact Hp.
Qed.

Lemma list_eq_nth_error {X : Type} (l l' : list X) :
  (forall r, nth_error l r = nth_error l' r) -> l = l'.
Proof.
  revert l'. induction l as [|x l IH]; intros [|x' l'] H.
  - reflexivity.
  - specialize (H 0). discriminate.
  - specialize (H 0). discriminate.
  - pose proof (H 0) as H0. simpl in H0. injection H0 as <-.
    f_equal. apply IH. intros r. exact (H (S r)).
Qed.

Lemma normalized_column_eq (Ar : Arith) (D : list DatasetRow) (j : nat)
  (column : string) :
  nth_error (numericCols Ar D) j = Some column ->
  normalized_column Ar D j
  = map (fun x =>
           div Ar (sub Ar x (@mean_of Ar (@column_values Ar D column)))
                  (@effective_std Ar (@column_values Ar D column)))
        (@column_values Ar D column).
Proof.
  intros Hj. apply list_eq_nth_error. intros r.
  unfold normalized_column, column_values.
  rewrite map_map, !nth_error_map.
  destruct (nth_error D r) as [row|] eqn:Hr.
  - destruct (normalized_nth Ar D j column r row Hj Hr) as [v [Hv Hc]].
    rewrite Hv. simpl. f_equal. unfold cell.
    now apply nth_error_nth.
  - assert (Hn : nth_error (normalizedMatrix Ar D) r = None).
    { apply nth_error_None. rewrite normalizedMatrix_length.
      now apply nth_error_None. }
    now rewrite Hn.
Qed.


Lemma numericCols_exact_scenarioA : numericCols exact scenarioA = ["Age"].
Proof.
  rewrite numericCols_filter. unfold candidateColumns. simpl hd. simpl map.
  unfold qualifies. cbn [filter].
  assert (H1 : clears_threshold exact scenarioA "Department" = false).
  { destruct (clears_threshold exact scenarioA "Department") eqn:E;
      [|reflexivity].
    apply clears_threshold_exact in E; [|discriminate].
    vm_compute in E. lia. }
  assert (H2 : clears_threshold exact scenarioA "Attrition" = false).
  { destruct (clears_threshold exact scenarioA "Attrition") eqn:E;
      [|reflexivity].
    apply clears_threshold_exact in E; [|discriminate].
    vm_compute in E. lia. }
  assert (H3 : clears_threshold exact scenarioA "Age" = true).
  { apply clears_threshold_exact; [discriminate|]. vm_compute. lia. }
  rewrite H1, H2, H3.
  change (excludedb "Department") with false.
  change (excludedb "Attrition") with false.
  change (excludedb "Age") with false.
  reflexivity.
Qed.


(** ** Distances are symmetric *)

Lemma euclidean_sym (Ar : Arith) (u v : list (num Ar)) :
  (forall a b, mul Ar (sub Ar a b) (sub Ar a b)
               = mul Ar (sub Ar b a) (sub Ar b a)) ->
  euclidean Ar u v = euclidean Ar v u.
Proof.
  intros Hsym. unfold euclidean. f_equal. generalize (zero Ar).
  revert v. induction u as [|a u IH]; intros [|b v] acc; simpl; trivial.
  now rewrite (Hsym a b), IH.
Qed.

Lemma distances_entry (Ar : Arith) (D : list DatasetRow) (i : nat)
  (target : list (num Ar)) (l : list (SimilarEmployee Ar))
  (e : SimilarEmployee Ar) :
  nth_error (normalizedMatrix Ar D) i = Some target ->
  distances Ar D i = Some l ->
  In e l ->
  exists v,
    nth_error (normalizedMatrix Ar D) (se_index e) = Some v
    /\ distance e = euclidean Ar v target.
Proof.
  intros Ht Hl He. rewrite (distances_Some Ar D i target Ht) in Hl.
  injection Hl as <-.
  apply (Permutation_in _ (Permutation_sym (sort_perm Ar by_distance _)))
    in He.
  destruct (entries_In Ar D target _ 0 e He) as [k [v [Hk ->]]].
  exists v. simpl. split; [exact Hk|].
  apply sum_squares_euclidean.
  rewrite (normalizedMatrix_row_length Ar D v (nth_error_In _ _ Hk)).
  now rewrite (normalizedMatrix_row_length Ar D target (nth_error_In _ _ Ht)).
Qed.

(** X20: similarity is symmetric: when the square of a difference does
    not depend on the order of its operands, as in exact arithmetic, the
    distance of record [r] computed for the target [i] is the distance of
    record [i] computed for the target [r]. *)
Theorem distances_are_symmetric (Ar : Arith) (D : list DatasetRow)
  (i r : nat) :
  (forall a b, mul Ar (sub Ar a b) (sub Ar a b)
               = mul Ar (sub Ar b a) (sub Ar b a)) ->
  i < List.length D ->
  r < List.length D ->
  exists li lr,
    distances Ar D i = Some li
    /\ distances Ar D r = Some lr
    /\ forall e e',
         In e li -> In e' lr ->
         se_index e = r -> se_index e' = i ->
         distance e = distance e'.
Proof.
  intros Hsym Hi Hr.
  destruct (target_defined Ar D i Hi) as [ti Hti].
  destruct (target_defined Ar D r Hr) as [tr Htr].
  exists (sort Ar by_distance (mapi (entry_of D ti) (normalizedMatrix Ar D))),
         (sort Ar by_distance (mapi (entry_of D tr) (normalizedMatrix Ar D))).
  pose proof (distances_Some Ar D i ti Hti) as Hli.
  pose proof (distances_Some Ar D r tr Htr) as Hlr.
  split; [exact Hli|]. split; [exact Hlr|].
  intros e e' He He' Er Ei.
  destruct (distances_entry Ar D i ti _ e Hti Hli He) as [v [Hv Hd]].
  destruct (distances_entry Ar D r tr _ e' Htr Hlr He') as [v' [Hv' Hd']].
  rewrite Er, Htr in Hv. injection Hv as <-.
  rewrite Ei, Hti in Hv'. injection Hv' as <-.
  rewrite Hd, Hd'. now apply euclidean_sym.
Qed.

Lemma Rsquare_sym (a b : R) :
  ((a - b) * (a - b) = (b - a) * (b - a))%R.
Proof. ring. Qed.

Lemma distances_are_symmetric_witness :
  exists li lr,
    distances exact scenarioA 0 = Some li
    /\ distances exact scenarioA 1 = Some lr
    /\ forall e e',
         In e li -> In e' lr ->
         se_index e = 1 -> se_index e' = 0 ->
         distance e = distance e'.
Proof.
  apply (distances_are_symmetric exact scenarioA 0 1).
  - intros a b. apply Rsquare_sym.
  - simpl. lia.
  - simpl. lia.
Defined.

(* ================================================================== *)
(** * Properties of the strategy route                                 *)
(* ================================================================== *)

(** ** The models tried *)

Lemma Array_from_Set_NoDup (l : list string) :
  NoDup l -> Generate.Array_from_Set l = l.
Proof.
  induction 1 as [|m l Hm Hl IH]; simpl; [reflexivity|].
  rewrite IH. f_equal. apply forallb_filter_id. apply forallb_forall.
  intros m' Hm'. apply negb_true_iff, String.eqb_neq.
  intros ->. contradiction.
Qed.

Lemma MODEL_FALLBACK_CHAIN_NoDup : NoDup Generate.MODEL_FALLBACK_CHAIN.
Proof.
  unfold Generate.MODEL_FALLBACK_CHAIN.
  repeat (constructor; [simpl; intuition discriminate|]). constructor.
Qed.

Lemma filter_other_NoDup (p : string) (l : list string) :
  NoDup l -> NoDup (p :: filter (fun m => negb (String.eqb m p)) l).
Proof.
  intros H. constructor; [|now apply NoDup_filter].
  rewrite filter_In. intros [_ E]. now rewrite String.eqb_refl in E.
Qed.

Lemma modelCandidates_eq (env : Generate.Env) :
  Generate.modelCandidates env
  = match Generate.preferredModel env with
    | Some ((String _ _) as preferred) =>
        preferred :: filter (fun m => negb (String.eqb m preferred))
                            Generate.MODEL_FALLBACK_CHAIN
    | _ => Generate.MODEL_FALLBACK_CHAIN
    end.
Proof.
  unfold Generate.modelCandidates.
  destruct (Generate.preferredModel env) as [[|c p]|]; reflexivity.
Qed.

Lemma modelCandidates_nonempty (env : Generate.Env) :
  Generate.modelCandidates env <> [].
Proof.
  rewrite modelCandidates_eq.
  destruct (Generate.preferredModel env) as [[|c p]|]; discriminate.
Qed.

(** X12: the models tried are the trimmed [GEMINI_MODEL], when it is set
    and not blank, followed by the fallback chain without that model, in
    the order of the chain; no model is tried twice and every model of the
    chain is tried. *)
Theorem modelCandidates_spec (env : Generate.Env) :
  Generate.modelCandidates env
  = match Generate.preferredModel env with
    | Some ((String _ _) as preferred) =>
        preferred :: filter (fun m => negb (String.eqb m preferred))
                            Generate.MODEL_FALLBACK_CHAIN
    | _ => Generate.MODEL_FALLBACK_CHAIN
    end
  /\ NoDup (Generate.modelCandidates env)
  /\ incl Generate.MODEL_FALLBACK_CHAIN (Generate.modelCandidates env).
Proof.
  rewrite modelCandidates_eq.
  destruct (Generate.preferredModel env) as [[|c p]|].
  - split; [reflexivity|]. split;
      [apply MODEL_FALLBACK_CHAIN_NoDup | apply incl_refl].
  - split; [reflexivity|]. split.
    + apply filter_other_NoDup, MODEL_FALLBACK_CHAIN_NoDup.
    + intros m Hm. destruct (String.eqb_spec m (String c p)) as [->|Hne].
      * now left.
      * right. apply filter_In. split; [exact Hm|].
        now apply negb_true_iff, String.eqb_neq.
  - split; [reflexivity|]. split;
      [apply MODEL_FALLBACK_CHAIN_NoDup | apply incl_refl].
Qed.

(** With [GEMINI_MODEL] naming a model of the chain, that model moves to
    the front. *)
Example modelCandidates_preferred_models :
  Generate.modelCandidates envG
  = [ "gemini-1.5-pro"; "gemini-2.0-flash"; "gemini-2.0-flash-exp";
      "gemini-1.5-flash-latest"; "gemini-1.5-flash"; "gemini-1.5-flash-8b";
      "gemini-pro"; "gemini-1.0-pro-latest" ].
Proof. vm_compute. reflexivity. Qed.

(** ** The fallback loop *)

Lemma tryModels_not_found (generate : string -> string + Generate.thrown)
  (pre : list string) :
  Forall (not_found generate) pre ->
  forall rest lastError attemptErrors,
    Generate.tryModels generate (pre ++ rest) lastError attemptErrors
    = Generate.tryModels generate rest
        (match rev pre with
         | [] => lastError
         | m :: _ => Some (failure generate m)
         end)
        (attemptErrors ++ map (attempt_of generate) pre).
Proof.
  induction 1 as [|m pre [error [Hm He]] Hpre IH];
    intros rest lastError attemptErrors; simpl.
  - now rewrite app_nil_r.
  - assert (Hf : failure generate m = error)
      by (unfold failure; now rewrite Hm).
    assert (Ha : attempt_of generate m
                 = {| Generate.model := m;
                      Generate.message :=
                        Generate.normalizeErrorMessage error |})
      by (unfold attempt_of; now rewrite Hf).
    rewrite Hm, He, IH, Ha, <- app_assoc. simpl. f_equal.
    destruct (rev pre) as [|m' r]; simpl; [now rewrite Hf | reflexivity].
Qed.

(** X13: the first candidate that does not fail with a model-not-found
    error decides the answer: its text is returned with its name (200),
    or its error is reported (502) with one attempt for each model tried,
    in the order tried; no later candidate is consulted. *)
Theorem first_decisive_model_answers (env : Generate.Env)
  (service : Generate.Service) (body : Generate.GeneratePayload)
  (employee : DatasetRow) (analysis : Generate.Analysis)
  (apiKey modelName : string) (pre post : list string) :
  Generate.employee body = Some employee ->
  Generate.analysis body = Some analysis ->
  Generate.GOOGLE_API_KEY env = Some apiKey ->
  apiKey <> "" ->
  Generate.modelCandidates env = (pre ++ modelName :: post)%list ->
  let generate :=
    fun m => service apiKey m (Generate.buildPrompt employee analysis) in
  Forall (not_found generate) pre ->
  (forall text,
      generate modelName = inl text ->
      Generate.POST env service body = Generate.Status200 text modelName)
  /\ (forall error,
        generate modelName = inr error ->
        Generate.isModelNotFound error = false ->
        Generate.POST env service body
        = Generate.Status502 (Generate.normalizeErrorMessage error)
            (map (attempt_of generate) (pre ++ [modelName]))).
Proof.
  intros He Ha Hk Hne Hcs generate Hpre.
  assert (E : Generate.POST env service body
              = Generate.tryModels generate (modelName :: post)
                  (match rev pre with
                   | [] => None
                   | m :: _ => Some (failure generate m)
                   end)
                  (map (attempt_of generate) pre)).
  { unfold Generate.POST. rewrite He, Ha, Hk.
    destruct apiKey as [|c k]; [contradiction|].
    cbv zeta. fold generate. rewrite Hcs.
    now rewrite (tryModels_not_found generate pre Hpre). }
  rewrite E. simpl. split.
  - intros text Ht. now rewrite Ht.
  - intros error Ht Hnf. rewrite Ht, Hnf. rewrite map_app. simpl.
    unfold attempt_of at 3, failure. now rewrite Ht.
Qed.

Lemma first_decisive_model_answers_witness :
  (forall text,
      only_model "gemini-2.0-flash" "key" "gemini-2.0-flash"
        (Generate.buildPrompt [("Age", VStr "35")]
           {| Generate.summary := None;
              Generate.analysis_employee := None;
              Generate.similar := None |}) = inl text ->
      Generate.POST envG (only_model "gemini-2.0-flash") requestG
      = Generate.Status200 text "gemini-2.0-flash")
  /\ (forall error,
        only_model "gemini-2.0-flash" "key" "gemini-2.0-flash"
          (Generate.buildPrompt [("Age", VStr "35")]
             {| Generate.summary := None;
                Generate.analysis_employee := None;
                Generate.similar := None |}) = inr error ->
        Generate.isModelNotFound error = false ->
        Generate.POST envG (only_model "gemini-2.0-flash") requestG
        = Generate.Status502 (Generate.normalizeErrorMessage error)
            (map (attempt_of
                    (fun m =>
                       only_model "gemini-2.0-flash" "key" m
                         (Generate.buildPrompt [("Age", VStr "35")]
                            {| Generate.summary := None;
                               Generate.analysis_employee := None;
                               Generate.similar := None |})))
                 (["gemini-1.5-pro"] ++ ["gemini-2.0-flash"]))).
Proof.
  apply (first_decisive_model_answers envG (only_model "gemini-2.0-flash")
           requestG [("Age", VStr "35")]
           {| Generate.summary := None;
              Generate.analysis_employee := None;
              Generate.similar := None |}
           "key" "gemini-2.0-flash" ["gemini-1.5-pro"]
           [ "gemini-2.0-flash-exp"; "gemini-1.5-flash-latest";
             "gemini-1.5-flash"; "gemini-1.5-flash-8b"; "gemini-pro";
             "gemini-1.0-pro-latest" ]).
  - reflexivity.
  - reflexivity.
  - reflexivity.
  - discriminate.
  - vm_compute. reflexivity.
  - repeat constructor. eexists. split; vm_compute; reflexivity.
Defined.

(** The preferred model is unknown to the service, the next one answers. *)
Example fallback_to_second_model :
  Generate.POST envG (only_model "gemini-2.0-flash") requestG
  = Generate.Status200 "1. Offer a mentor." "gemini-2.0-flash".
Proof. vm_compute. reflexivity. Qed.

(** An error that is not a missing model ends the loop at the first
    candidate. *)
Example quota_error_stops :
  Generate.POST envG no_quota requestG
  = Generate.Status502 "[429 Too Many Requests] quota"
      [ {| Generate.model := "gemini-1.5-pro";
           Generate.message := "[429 Too Many Requests] quota" |} ].
Proof. vm_compute. reflexivity. Qed.

(** X14: when every candidate fails with a model-not-found error, the
    answer is a 502 whose message is the "model unavailable" text ending
    in the last error, with one attempt for each candidate, in order. *)
Theorem all_models_not_found (env : Generate.Env)
  (service : Generate.Service) (body : Generate.GeneratePayload)
  (employee : DatasetRow) (analysis : Generate.Analysis) (apiKey : string) :
  Generate.employee body = Some employee ->
  Generate.analysis body = Some analysis ->
  Generate.GOOGLE_API_KEY env = Some apiKey ->
  apiKey <> "" ->
  let generate :=
    fun m => service apiKey m (Generate.buildPrompt employee analysis) in
  Forall (not_found generate) (Generate.modelCandidates env) ->
  exists lastModel lastMessage,
    last (Generate.modelCandidates env) "" = lastModel
    /\ generate lastModel = inr (Generate.ErrorObject lastMessage)
    /\ Generate.POST env service body
       = Generate.Status502
           (Generate.unavailable (Some (Generate.ErrorObject lastMessage)))
           (map (attempt_of generate) (Generate.modelCandidates env)).
Proof.
  intros He Ha Hk Hne generate Hall.
  pose proof (modelCandidates_nonempty env) as Hcs.
  assert (E : Generate.POST env service body
              = Generate.tryModels generate (Generate.modelCandidates env)
                  None []).
  { unfold Generate.POST. rewrite He, Ha, Hk.
    now destruct apiKey as [|c k]; [contradiction|]. }
  pose proof (tryModels_not_found generate _ Hall [] None []) as E'.
  rewrite app_nil_r in E'. simpl in E'.
  destruct (exists_last Hcs) as [front [lastModel Hl]].
  rewrite E, E', Hl, rev_app_distr, last_last. simpl.
  assert (Hnf : not_found generate lastModel).
  { rewrite Forall_forall in Hall. apply Hall. rewrite Hl.
    apply in_or_app. right. now left. }
  destruct Hnf as [error [Hg Hm]].
  destruct error as [lastMessage|b]; [|discriminate].
  exists lastModel, lastMessage. split; [reflexivity|].
  split; [exact Hg|]. unfold failure. now rewrite Hg.
Qed.

Lemma all_models_not_found_witness :
  exists lastModel lastMessage,
    last (Generate.modelCandidates envG) "" = lastModel
    /\ only_model "gemini-3" "key" lastModel
         (Generate.buildPrompt [("Age", VStr "35")]
            {| Generate.summary := None;
               Generate.analysis_employee := None;
               Generate.similar := None |})
       = inr (Generate.ErrorObject lastMessage)
    /\ Generate.POST envG (only_model "gemini-3") requestG
       = Generate.Status502
           (Generate.unavailable (Some (Generate.ErrorObject lastMessage)))
           (map (attempt_of
                   (fun m =>
                      only_model "gemini-3" "key" m
                        (Generate.buildPrompt [("Age", VStr "35")]
                           {| Generate.summary := None;
                              Generate.analysis_employee := None;
                              Generate.similar := None |})))
                (Generate.modelCandidates envG)).
Proof.
  apply (all_models_not_found envG (only_model "gemini-3") requestG
           [("Age", VStr "35")]
           {| Generate.summary := None;
              Generate.analysis_employee := None;
              Generate.similar := None |} "key").
  - reflexivity.
  - reflexivity.
  - reflexivity.
  - discriminate.
  - rewrite modelCandidates_preferred_models.
    repeat constructor; eexists; split; vm_compute; reflexivity.
Defined.

(** ** What the answers mean *)

Lemma tryModels_answer (generate : string -> string + Generate.thrown)
  (candidates : list string) :
  forall lastError attemptErrors,
    match Generate.tryModels generate candidates lastError attemptErrors with
    | Generate.Status200 text modelName =>
        In modelName candidates /\ generate modelName = inl text
    | Generate.Status502 _ attempts =>
        exists tried rest,
          candidates = (tried ++ rest)%list
          /\ attempts
             = (attemptErrors ++ map (attempt_of generate) tried)%list
    | _ => False
    end.
Proof.
  induction candidates as [|m cs IH]; intros lastError attemptErrors; simpl.
  - exists [], []. split; [reflexivity|]. simpl. now rewrite app_nil_r.
  - destruct (generate m) as [text|error] eqn:Hm.
    + split; [now left | exact Hm].
    + assert (Ha : {| Generate.model := m;
                      Generate.message :=
                        Generate.normalizeErrorMessage error |}
                   = attempt_of generate m).
      { unfold attempt_of, failure. now rewrite Hm. }
      rewrite Ha. destruct (Generate.isModelNotFound error).
      * specialize (IH (Some error) (attemptErrors ++ [attempt_of generate m])%list).
        destruct (Generate.tryModels generate cs _ _) as [text m'| | |msg att].
        -- destruct IH as [Hin Hg]. split; [now right | exact Hg].
        -- exact IH.
        -- exact IH.
        -- destruct IH as [tried [rest [-> ->]]].
           exists (m :: tried), rest. split; [reflexivity|].
           simpl. now rewrite <- app_assoc.
      * exists [m], cs. split; reflexivity.
Qed.

Lemma attempt_models (generate : string -> string + Generate.thrown)
  (tried : list string) :
  map Generate.model (map (attempt_of generate) tried) = tried.
Proof. rewrite map_map. simpl. apply map_id. Qed.


(* ================================================================== *)
(** * Properties of the page                                           *)
(* ================================================================== *)

(** ** The list of employees *)

Lemma mapi_from_In {X Y : Type} (f : X -> nat -> Y) (l : list X) :
  forall s y,
    In y (mapi_from s f l) ->
    exists k x, nth_error l k = Some x /\ y = f x (s + k).
Proof.
  induction l as [|x l IH]; intros s y; simpl; [tauto|].
  intros [<-|H].
  - exists 0, x. split; [reflexivity|]. now rewrite Nat.add_0_r.
  - destruct (IH _ _ H) as [k [x' [Hk ->]]].
    exists (S k), x'. split; [exact Hk|]. now rewrite Nat.add_succ_r.
Qed.

Lemma mapi_from_sorted {X : Type} (f : X -> nat -> Page.EmployeeOption)
  (l : list X) :
  (forall x i, Page.index (f x i) = i) ->
  forall s, StronglySorted before_option (mapi_from s f l).
Proof.
  intros Hf. induction l as [|x l IH]; intros s; simpl; constructor;
    [apply IH|].
  rewrite Forall_forall. intros o Ho.
  destruct (mapi_from_In _ _ _ _ Ho) as [k [x' [_ ->]]].
  unfold before_option. rewrite !Hf. lia.
Qed.

Lemma mapi_from_map {X Y Z : Type} (f : X -> nat -> Y) (g : Y -> Z)
  (l : list X) :
  (forall x i, g (f x i) = g (f x 0)) ->
  forall s, map g (mapi_from s f l) = map (fun x => g (f x 0)) l.
Proof.
  intros Hg. induction l as [|x l IH]; intros s; simpl; [reflexivity|].
  now rewrite IH, Hg.
Qed.

Lemma employeeOptions_In (toLowerCase : string -> string)
  (D : list Page.CsvRow) (o : Page.EmployeeOption) :
  In o (Page.employeeOptions toLowerCase D) ->
  nth_error D (Page.index o) = Some (Page.row o)
  /\ Page.label o = Page.buildEmployeeLabel (Page.row o) (Page.index o)
  /\ Page.labelLower o = toLowerCase (Page.label o).
Proof.
  intros H. destruct (mapi_from_In _ _ _ _ H) as [k [x [Hk ->]]].
  simpl. now repeat split.
Qed.

(** X16: the list of employees shows at most 50 entries, at most 25 and
    the first 25 records when nothing is searched for; its entries are in
    ascending order of their index, so none is shown twice; every entry
    carries the record at its index and the label built from it, and,
    when something is searched for, passes the test of the filter. *)
Theorem filteredEmployees_spec (toLowerCase : string -> string)
  (s : Page.State) :
  List.length (Page.filteredEmployees toLowerCase s) <= 50
  /\ (Page.searchTerm s = "" ->
      map Page.row (Page.filteredEmployees toLowerCase s)
      = firstn 25 (Page.csvData s))
  /\ StronglySorted before_option (Page.filteredEmployees toLowerCase s)
  /\ forall o,
       In o (Page.filteredEmployees toLowerCase s) ->
       nth_error (Page.csvData s) (Page.index o) = Some (Page.row o)
       /\ Page.label o
          = Page.buildEmployeeLabel (Page.row o) (Page.index o)
       /\ (Page.searchTerm s <> "" ->
           Page.matches (toLowerCase (Page.searchTerm s)) o = true).
Proof.
  assert (HS : StronglySorted before_option
                 (Page.employeeOptions toLowerCase (Page.csvData s))).
  { apply mapi_from_sorted. reflexivity. }
  unfold Page.filteredEmployees.
  destruct (String.eqb_spec (Page.searchTerm s) "") as [E|E].
  - split; [rewrite length_firstn; lia|].
    split.
    { intros _. rewrite <- firstn_map. f_equal.
      unfold Page.employeeOptions, mapi.
      rewrite (mapi_from_map _ Page.row) by reflexivity. apply map_id. }
    split; [now apply StronglySorted_firstn|].
    intros o Ho. apply firstn_In in Ho.
    destruct (employeeOptions_In _ _ _ Ho) as [H1 [H2 _]].
    split; [exact H1|]. split; [exact H2 | contradiction].
  - cbv zeta. split; [rewrite length_firstn; lia|].
    split; [contradiction|].
    split; [now apply StronglySorted_firstn, StronglySorted_filter'|].
    intros o Ho. apply firstn_In in Ho. apply filter_In in Ho.
    destruct Ho as [Ho Hm].
    destruct (employeeOptions_In _ _ _ Ho) as [H1 [H2 _]].
    split; [exact H1|]. split; [exact H2 | now intros _].
Qed.

(** ** The selection *)

Lemma filteredEmployees_index (toLowerCase : string -> string)
  (s : Page.State) (position : nat) (o : Page.EmployeeOption) :
  nth_error (Page.filteredEmployees toLowerCase s) position = Some o ->
  Page.index o < List.length (Page.csvData s).
Proof.
  intros H. apply nth_error_In in H.
  assert (Ho : In o (Page.employeeOptions toLowerCase (Page.csvData s))).
  { unfold Page.filteredEmployees in H.
    destruct (String.eqb (Page.searchTerm s) ""); apply firstn_In in H;
      [exact H | now apply filter_In in H]. }
  destruct (employeeOptions_In _ _ _ Ho) as [H1 _].
  apply nth_error_Some. now rewrite H1.
Qed.

Lemma step_selection (toLowerCase : string -> string) (s : Page.State)
  (e : Page.Event) :
  selection_in_range s -> selection_in_range (Page.step toLowerCase s e).
Proof.
  intros Hs. destruct e as [rows|term|position|[position|]]; simpl.
  - intros i. unfold Page.handleParsedData. cbv zeta. simpl.
    match goal with
    | |- context [filter ?p rows] => destruct (filter p rows) as [|r v]
    end; simpl; [discriminate|].
    intros H. injection H as <-. lia.
  - exact Hs.
  - destruct (nth_error _ position) as [o|] eqn:E; [|exact Hs].
    intros i H. simpl in *. injection H as <-.
    now apply (filteredEmployees_index toLowerCase s position).
  - destruct (nth_error _ position) as [o|] eqn:E; [|exact Hs].
    intros i H. simpl in *. injection H as <-.
    now apply (filteredEmployees_index toLowerCase s position).
  - intros i H. discriminate.
Qed.

Lemma run_selection (toLowerCase : string -> string)
  (events : list Page.Event) :
  selection_in_range (Page.run toLowerCase events).
Proof.
  unfold Page.run.
  assert (H : selection_in_range Page.initial) by (intros i H; discriminate).
  revert H. generalize Page.initial.
  induction events as [|e events IH]; intros s Hs; simpl; [exact Hs|].
  apply IH. now apply step_selection.
Qed.

Lemma JSON_row_nth (D : list Page.CsvRow) (i : nat) :
  nth i (map Page.JSON_row D) [] = Page.JSON_row (nth i D []).
Proof. now rewrite <- (map_nth Page.JSON_row). Qed.

(** X17: whatever the user does, the selection stays a position of the
    loaded dataset, and a request [analyzeSelectedEmployee] sends passes
    the validation of the analysis route: the route answers 200, with the
    number of loaded records as total and the selected record as
    employee. *)
Theorem page_requests_are_accepted (Ar : Arith)
  (toLowerCase : string -> string) (events : list Page.Event)
  (body : AnalyzePayload) :
  Page.analyzeRequest (Page.run toLowerCase events) = Some body ->
  exists i response,
    Page.selectedIndex (Page.run toLowerCase events) = Some i
    /\ i < List.length (Page.csvData (Page.run toLowerCase events))
    /\ POST Ar body = Status200 response
    /\ summary_total Ar response
       = List.length (Page.csvData (Page.run toLowerCase events))
    /\ resp_employee Ar response
       = Page.JSON_row (nth i (Page.csvData (Page.run toLowerCase events)) []).
Proof.
  pose proof (run_selection toLowerCase events) as Hs.
  set (s := Page.run toLowerCase events) in *.
  unfold Page.analyzeRequest. intros H.
  destruct (Page.csvData s) as [|r D] eqn:ED; [discriminate|].
  destruct (Page.selectedIndex s) as [i|] eqn:Ei; [|discriminate].
  injection H as <-. specialize (Hs i Ei). rewrite ED in Hs.
  destruct (POST_in_range Ar (map Page.JSON_row (r :: D)) (Z.of_nat i))
    as [target [_ HP]].
  { rewrite length_map. lia. }
  exists i. eexists. split; [reflexivity|]. split; [exact Hs|].
  split; [exact HP|]. cbn [summary_total resp_employee].
  rewrite length_map, Nat2Z.id. split; [reflexivity | apply JSON_row_nth].
Qed.

Lemma page_requests_are_accepted_witness :
  exists i response,
    Page.selectedIndex
      (Page.run JS.toLowerCase [Page.Parsed scenarioA; Page.Click 1])
    = Some i
    /\ i < List.length
             (Page.csvData
                (Page.run JS.toLowerCase
                   [Page.Parsed scenarioA; Page.Click 1]))
    /\ POST ieee (Build_AnalyzePayload (Some scenarioA) (Some 1%Z))
       = Status200 response
    /\ summary_total ieee response
       = List.length
           (Page.csvData
              (Page.run JS.toLowerCase
                 [Page.Parsed scenarioA; Page.Click 1]))
    /\ resp_employee ieee response
       = Page.JSON_row
           (nth i (Page.csvData
                     (Page.run JS.toLowerCase
                        [Page.Parsed scenarioA; Page.Click 1])) []).
Proof.
  apply (page_requests_are_accepted ieee JS.toLowerCase
           [Page.Parsed scenarioA; Page.Click 1]
           (Build_AnalyzePayload (Some scenarioA) (Some 1%Z))).
  reflexivity.
Defined.

(** ** Percentages on the page *)

Lemma digits2_pos_bound (m : positive) :
  (Zpos m < 2 ^ Zpos (digits2_pos m))%Z.
Proof.
  induction m as [m IH|m IH|]; simpl digits2_pos;
    rewrite ?Pos2Z.inj_succ, ?Z.pow_succ_r by lia; lia.
Qed.

Lemma mantissa_bound (x : float) (s : bool) (m : positive) (e : Z) :
  Prim2SF x = S754_finite s m e -> (Zpos m < 2 ^ 53)%Z.
Proof.
  intros E. pose proof (Prim2SF_valid x) as H. rewrite E in H.
  unfold SpecFloat.valid_binary, bounded, canonical_mantissa in H.
  apply andb_true_iff in H. destruct H as [H _]. apply Z.eqb_eq in H.
  pose proof (digits2_pos_bound m) as Hm.
  unfold SpecFloat.fexp in H.
  assert (Hd : (Zpos (digits2_pos m) + e - 53 <= e)%Z).
  { rewrite <- H at 2. apply Z.le_max_l. }
  pose proof (Z.pow_le_mono_r 2 (Zpos (digits2_pos m)) 53
                ltac:(lia) ltac:(lia)).
  lia.
Qed.

Lemma SFeqb_finite_refl (s : bool) (m : positive) (e : Z) :
  SFeqb (S754_finite s m e) (S754_finite s m e) = true.
Proof.
  unfold SFeqb, SFcompare.
  destruct s; rewrite Z.compare_refl, Pos.compare_cont_refl; reflexivity.
Qed.

Lemma is_finite_SF (x : float) :
  is_finite x
  = match Prim2SF x with
    | S754_zero _ | S754_finite _ _ _ => true
    | _ => false
    end.
Proof.
  unfold is_finite, is_nan, is_infinity.
  rewrite !eqb_spec, abs_spec.
  change (Prim2SF infinity) with (S754_infinity false).
  destruct (Prim2SF x) as [s|s| |s m e]; try (destruct s; reflexivity).
  - reflexivity.
  - rewrite SFeqb_finite_refl. reflexivity.
Qed.

Lemma Prim2SF_zero : Prim2SF PrimFloat.zero = S754_zero false.
Proof. vm_compute. reflexivity. Qed.

Lemma Prim2SF_hundred :
  Prim2SF 100 = S754_finite false 7036874417766400 (-46).
Proof. vm_compute. reflexivity. Qed.

Lemma Prim2SF_ten_to_21 :
  Prim2SF 0x1.b1ae4d6e2ef5p+69 = S754_finite false 7629394531250000 17.
Proof. vm_compute. reflexivity. Qed.

(** Comparison of two positive finite doubles, on their mantissas and
    exponents. *)
Lemma SFleb_finite (m1 m2 : positive) (e1 e2 : Z) :
  SFleb (S754_finite false m1 e1) (S754_finite false m2 e2) = true ->
  (e1 < e2 \/ (e1 = e2 /\ Zpos m1 <= Zpos m2))%Z.
Proof.
  unfold SFleb, SFcompare. intros H.
  destruct (Z.compare_spec e1 e2) as [->|Hlt|Hgt];
    [right | now left | discriminate].
  split; [reflexivity|]. apply Pos2Z.pos_le_pos. intros Hc.
  unfold Pos.compare in Hc. rewrite Hc in H. discriminate.
Qed.

Lemma SFleb_finite_above (m1 m2 : positive) (e1 e2 : Z) :
  (e2 < e1)%Z ->
  SFleb (S754_finite false m1 e1) (S754_finite false m2 e2) = false.
Proof.
  unfold SFleb, SFcompare. intros H.
  destruct (Z.compare_spec e1 e2); [lia | lia | reflexivity].
Qed.

(** The value of a double that is at most 100, as a fraction. *)
Lemma at_most_hundred (x : float) (m : positive) (e : Z) :
  Prim2SF x = S754_finite false m e ->
  SFleb (S754_finite false m e)
        (S754_finite false 7036874417766400 (-46)) = true ->
  (e <= -46 /\ Zpos m <= 100 * 2 ^ (- e))%Z.
Proof.
  intros E H100. pose proof (mantissa_bound x _ _ _ E) as Hm.
  destruct (SFleb_finite _ _ _ _ H100) as [Hlt|[-> Hc]].
  - split; [lia|].
    pose proof (Z.pow_le_mono_r 2 47 (- e) ltac:(lia) ltac:(lia)).
    assert (E53 : (2 ^ 53 = 64 * 2 ^ 47)%Z) by (vm_compute; reflexivity).
    rewrite E53 in Hm. lia.
  - split; [lia|].
    assert (E46 : (2 ^ (- -46) = 70368744177664)%Z)
      by (vm_compute; reflexivity).
    rewrite E46. lia.
Qed.

Lemma hundredths_range (p q : Z) :
  (0 <= p)%Z -> (0 < q)%Z -> (p <= 100 * q)%Z ->
  (0 <= (200 * p + q) / (2 * q) <= 10000)%Z.
Proof.
  intros Hp Hq H. split.
  - apply Z.div_pos; lia.
  - apply Z.lt_succ_r, Z.div_lt_upper_bound; lia.
Qed.

(** A double between 0 and 100 is written by [toFixed(2)] as a whole
    number of hundredths between 0 and 10000. *)
Lemma percent_text (x : float) :
  PrimFloat.leb 0 x = true ->
  PrimFloat.leb x 100 = true ->
  exists n, (0 <= n <= 10000)%Z /\ JS.toFixed2 x = two_decimals n.
Proof.
  intros H0 H100. unfold JS.toFixed2, JS.exact_value.
  rewrite is_finite_SF. rewrite leb_spec, ltb_spec, abs_spec.
  rewrite leb_spec in H0, H100.
  rewrite Prim2SF_zero in *. rewrite Prim2SF_hundred in H100.
  rewrite Prim2SF_ten_to_21.
  destruct (Prim2SF x) as [s|s| |s m e] eqn:E.
  - exists 0%Z. split; [lia|]. destruct s; reflexivity.
  - destruct s; discriminate.
  - discriminate.
  - destruct s; [discriminate|].
    destruct (at_most_hundred x m e E H100) as [He Hle].
    assert (Hq : (0 < 2 ^ (- e))%Z) by (apply Z.pow_pos_nonneg; lia).
    exists ((200 * Zpos m + 2 ^ (- e)) / (2 * 2 ^ (- e)))%Z.
    split; [apply hundredths_range; lia|].
    simpl SFabs. rewrite SFleb_finite_above by lia.
    destruct (Z.leb_spec 0 e); [lia|]. reflexivity.
Qed.

Lemma range_In (k : nat) :
  forall start z,
    (start <= z < start + Z.of_nat k)%Z -> In z (range k start).
Proof.
  induction k as [|k IH]; intros start z Hz; [lia|]. simpl.
  destruct (Z.eq_dec start z) as [E|E]; [now left | right].
  apply IH. lia.
Qed.

(** Checked on each of the 10001 texts. *)
Lemma two_decimals_kept (n : Z) :
  (0 <= n <= 10000)%Z ->
  JS.toFixed2 (JS.Number (two_decimals n)) = two_decimals n.
Proof.
  intros Hn.
  assert (H : forallb text_kept (range (100 * 100 + 1) 0) = true)
    by (vm_compute; reflexivity).
  rewrite forallb_forall in H. apply String.eqb_eq, H, range_In. lia.
Qed.

(** X18: a rate between 0 and 100 that the route has rounded with
    [Number(x.toFixed(2))] is displayed by [formatPercent] as the very
    text [x.toFixed(2)] followed by the percent sign: the second rounding
    changes nothing. *)
Theorem displayed_rate_is_rounded_rate (x : float) :
  PrimFloat.leb 0 x = true ->
  PrimFloat.leb x 100 = true ->
  Page.formatPercent (round2 ieee x) = (JS.toFixed2 x ++ "%")%string.
Proof.
  intros H0 H100. destruct (percent_text x H0 H100) as [n [Hn E]].
  unfold Page.formatPercent. cbn [round2 ieee].
  change (toFixed 2) with JS.toFixed2.
  now rewrite E, (two_decimals_kept n Hn).
Qed.

Lemma displayed_rate_is_rounded_rate_witness :
  Page.formatPercent (round2 ieee 0x1.0aaaaaaaaaaabp+5%float)
  = (JS.toFixed2 0x1.0aaaaaaaaaaabp+5%float ++ "%")%string.
Proof.
  apply (displayed_rate_is_rounded_rate 0x1.0aaaaaaaaaaabp+5%float);
    reflexivity.
Defined.

(** One attrition among three records: the route answers 33.33 and the
    page shows it as such. *)
Example one_in_three_displayed :
  Page.formatPercent (percentage ieee 1 3) = "33.33%".
Proof. vm_compute. reflexivity. Qed.
